(** * react-opensheetmusic: a shallow embedding of the adapter layer

    The development follows the TypeScript sources:

    - [Js]                 the fragments of JavaScript the hooks rely on:
                           thrown values, truthiness,
                           [String.prototype.trim], property reads on an
                           object literal, the members of
                           [Object.prototype];
    - [React]              the state setter of [useState];
    - [UsePageFormat]      [src/hooks/usePageFormat.ts];
    - [UseMultipleCursors] the cursor-list hook, [useMultipleCursors];
    - [UseColoring]        the coloring hook, [useColoring];
    - [Effect]             a state and exception monad with
                           [try]/[catch]/[finally];
    - [UseOSMD]            the engine-binding hook,
                           [src/hooks/useOSMD.ts];
    - [UseOSMD_rev]        the second copy of that hook found in the
                           repository, where it differs;
    - [Activation]         successive runs of the hook's init effect and
                           the calls a consumer can make;
    - [SheetMusic]         the component,
                           [src/components/SheetMusic.tsx];
    - [Samples]            concrete engines, stores and props.

    React state is modelled by explicit state passing: a [useState] cell is a
    record field, a setter is a field update, a [useRef] cell is a field that
    is written in place.  Calls into the rendering engine and into the
    consumer's callbacks are recorded in a trace, in program order.  An
    [async] function is run to completion where it is called: the
    statements after an [await] follow the awaited call in the trace.

    Numbers are rationals ([Q]); not-a-number and the infinities are not
    represented. *)

From Stdlib Require Import String Ascii List ZArith QArith Bool Lia.
From stdpp Require Import base gmap strings.

Import ListNotations.
#[local] Open Scope string_scope.
#[local] Open Scope list_scope.

(* ===================================================================== *)
(** * JavaScript fragments *)
(* ===================================================================== *)

Module Js.

(** ** Thrown values

    Anything can be thrown in JavaScript.  The hooks only ever ask one
    question of a caught value: [err instanceof Error]. *)
Inductive Thrown : Type :=
| ErrorObject (message : string)   (* an instance of [Error] *)
| NonError (repr : string).        (* a string, a number, a plain object... *)

Definition instanceof_Error (v : Thrown) : bool :=
  match v with
  | ErrorObject _ => true
  | NonError _ => false
  end.

(** [new Error(message)] *)
Definition new_Error (message : string) : Thrown := ErrorObject message.

(** [err instanceof Error ? err : new Error(fallback)] *)
Definition as_Error (fallback : string) (err : Thrown) : Thrown :=
  if instanceof_Error err then err else new_Error fallback.

(** ** Strings

    A JavaScript string is a sequence of UTF-16 code units.  A Rocq
    [string] stands for the strings whose code units are below 256, one
    [ascii] per code unit. *)

(** Truthiness of a string: every string but [''] is truthy. *)
Definition truthy_string (s : string) : bool :=
  match s with
  | EmptyString => false
  | String _ _ => true
  end.

(** The code units below 256 that [trim] strips: the WhiteSpace and
    LineTerminator productions of ECMAScript (TAB, LF, VT, FF, CR, SP and
    NBSP). *)
Definition is_white_space (c : ascii) : bool :=
  let n := nat_of_ascii c in
  (Nat.eqb n 9 || Nat.eqb n 10 || Nat.eqb n 11 || Nat.eqb n 12
   || Nat.eqb n 13 || Nat.eqb n 32 || Nat.eqb n 160)%bool.

Definition is_empty (s : string) : bool :=
  match s with
  | EmptyString => true
  | String _ _ => false
  end.

Fixpoint trimStart (s : string) : string :=
  match s with
  | EmptyString => EmptyString
  | String c rest => if is_white_space c then trimStart rest else s
  end.

Fixpoint trimEnd (s : string) : string :=
  match s with
  | EmptyString => EmptyString
  | String c rest =>
      let rest' := trimEnd rest in
      if (is_white_space c && is_empty rest')%bool
      then EmptyString
      else String c rest'
  end.

(** [String.prototype.trim] *)
Definition trim (s : string) : string := trimEnd (trimStart s).

Fixpoint all_white_space (s : string) : bool :=
  match s with
  | EmptyString => true
  | String c rest => (is_white_space c && all_white_space rest)%bool
  end.

(** ** How a call ends: it returns a value or it throws *)
Inductive Result (A : Type) : Type :=
| Returned (a : A)
| Raised (v : Thrown).

Arguments Returned {A} a.
Arguments Raised {A} v.

(** ** Values

    The values that can turn up where an object of type [A] is expected:
    TypeScript's index signatures do not see the prototype chain. *)
Inductive Value (A : Type) : Type :=
| Obj (a : A)                  (* an object of the expected type *)
| ObjectPrototype              (* the object [Object.prototype] *)
| Member (key : string)        (* the function [Object.prototype[key]] *)
| OtherObject (repr : string)  (* another object: [{}], a wrapper object *)
| Str (s : string)             (* a primitive string *)
| Boolean (b : bool)           (* a primitive boolean *)
| Undef.                       (* [undefined] *)

Arguments Obj {A} a.
Arguments ObjectPrototype {A}.
Arguments Member {A} key.
Arguments OtherObject {A} repr.
Arguments Str {A} s.
Arguments Boolean {A} b.
Arguments Undef {A}.

Definition truthy {A : Type} (v : Value A) : bool :=
  match v with
  | Obj _ | ObjectPrototype | Member _ | OtherObject _ => true
  | Str s => truthy_string s
  | Boolean b => b
  | Undef => false
  end.

(** [a || b] *)
Definition or_else {A : Type} (a b : Value A) : Value A :=
  if truthy a then a else b.

Definition is_object {A : Type} (v : Value A) : bool :=
  match v with
  | Obj _ | ObjectPrototype | Member _ | OtherObject _ => true
  | Str _ | Boolean _ | Undef => false
  end.

(** ** Property reads on an object literal

    [obj[key]] on an object created by a literal first looks for an own
    property and then walks the prototype chain, which for a literal is
    [Object.prototype].  The properties of [Object.prototype] are the
    accessor [__proto__], which yields the prototype of the object, and
    eleven functions. *)
Definition Object_prototype_keys : list string :=
  [ "constructor"; "__defineGetter__"; "__defineSetter__"; "hasOwnProperty";
    "__lookupGetter__"; "__lookupSetter__"; "isPrototypeOf";
    "propertyIsEnumerable"; "toString"; "valueOf"; "__proto__";
    "toLocaleString" ].

Definition get {A : Type} (own : gmap string A) (key : string) : Value A :=
  match own !! key with
  | Some v => Obj v
  | None =>
      if bool_decide (key ∈ Object_prototype_keys)
      then (if String.eqb key "__proto__" then ObjectPrototype
            else Member key)
      else Undef
  end.

(** ** Calling a member of [Object.prototype] as a plain function *)

Definition TypeError : Thrown :=
  ErrorObject "Cannot convert undefined or null to object".

(** [Object(v)]: an object is returned as it is, a primitive is wrapped,
    [undefined] gives a new empty object. *)
Definition Object_call {A : Type} (v : Value A) : Value A :=
  match v with
  | Str s => OtherObject s
  | Boolean true => OtherObject "true"
  | Boolean false => OtherObject "false"
  | Undef => OtherObject "{}"
  | _ => v
  end.

(** [f(v)] for [f = Object.prototype[key]], that is with [this]
    undefined.  [Object] converts its argument; [toString] answers for the
    undefined receiver; [isPrototypeOf] answers [false] for a primitive
    argument; every other path goes through [ToObject(this)], which
    throws a [TypeError]. *)
Definition call_member {A : Type} (key : string) (v : Value A)
  : Result (Value A) :=
  if String.eqb key "constructor" then Returned (Object_call v)
  else if String.eqb key "toString" then Returned (Str "[object Undefined]")
  else if String.eqb key "isPrototypeOf" then
    (if is_object v then Raised TypeError else Returned (Boolean false))
  else Raised TypeError.

End Js.

(* ===================================================================== *)
(** * React's state setter *)
(* ===================================================================== *)

Module React.

Import Js.

(** [setState(arg)], as resolved when React applies the update to the
    previous state: a function is an updater and is called with the
    previous state, anything else is the next state.  A [Raised] result
    is the exception of the updater, which React raises from the render
    that applies the update. *)
Definition setState {A : Type} (arg : Value A) (prev : Value A)
  : Result (Value A) :=
  match arg with
  | Member key => call_member key prev
  | _ => Returned arg
  end.

End React.

(* ===================================================================== *)
(** * The page-format hook: [src/hooks/usePageFormat.ts] *)
(* ===================================================================== *)

Module UsePageFormat.

Import Js.

(** [interface PageFormat]; [isInfinite] is an optional member. *)
Record PageFormat : Type := mkPageFormat {
  width : Q;
  height : Q;
  idString : string;
  isInfinite : option bool
}.

Definition A3_L := mkPageFormat 420 297 "A3_L" None.
Definition A3_P := mkPageFormat 297 420 "A3_P" None.
Definition A4_L := mkPageFormat 297 210 "A4_L" None.
Definition A4_P := mkPageFormat 210 297 "A4_P" None.
Definition A5_L := mkPageFormat 210 148 "A5_L" None.
Definition A5_P := mkPageFormat 148 210 "A5_P" None.
Definition A6_L := mkPageFormat 148 105 "A6_L" None.
Definition A6_P := mkPageFormat 105 148 "A6_P" None.
Definition Letter_L := mkPageFormat (2794 # 10) (2159 # 10) "Letter_L" None.
Definition Letter_P := mkPageFormat (2159 # 10) (2794 # 10) "Letter_P" None.
Definition Endless := mkPageFormat 210 10000 "Endless" (Some true).

(** The own properties of the [PageFormats] object literal. *)
Definition PageFormats : gmap string PageFormat :=
  list_to_map
    [ ("A3_L", A3_L); ("A3_P", A3_P); ("A4_L", A4_L); ("A4_P", A4_P);
      ("A5_L", A5_L); ("A5_P", A5_P); ("A6_L", A6_L); ("A6_P", A6_P);
      ("Letter_L", Letter_L); ("Letter_P", Letter_P);
      ("Endless", Endless) ].

(** [string | PageFormat]: the argument of [setFormat]. *)
Inductive FormatArg : Type :=
| ByName (name : string)
| ByValue (pf : PageFormat).

(** What the [format] cell holds at run time.  Its declared type is
    [PageFormat]. *)
Definition Stored : Type := Value PageFormat.

(** [PageFormats.Endless] *)
Definition PageFormats_Endless : Stored := get PageFormats "Endless".

(** [setFormat] (lines 50-56): the cell after React has applied the
    update, or the exception React raises when it applies it. *)
Definition setFormat (newFormat : FormatArg) (prev : Stored)
  : Result Stored :=
  match newFormat with
  | ByName name =>
      React.setState (or_else (get PageFormats name) PageFormats_Endless) prev
  | ByValue pf => React.setState (Obj pf) prev
  end.

Section CustomFormat.

(** Number-to-string conversion, as performed by a template literal and
    by [+] with a string operand. *)
Variable number_to_string : Q -> string.

(** [`Custom_${width}x${height}`] *)
Definition custom_id (w h : Q) : string :=
  "Custom_" +:+ number_to_string w +:+ "x" +:+ number_to_string h.

(** The specification's wording of the generated id, the expression
    ["Custom_" + w + "x" + h]: [+] associates to the left. *)
Definition spec_custom_id (w h : Q) : string :=
  (("Custom_" +:+ number_to_string w) +:+ "x") +:+ number_to_string h.

(** [setCustomFormat(width, height, id?)] (lines 58-65); [id] is [None]
    when the argument is omitted (or [undefined]). *)
Definition setCustomFormat (w h : Q) (id : option string) (prev : Stored)
  : Result Stored :=
  React.setState
    (Obj {| width := w;
            height := h;
            idString := match id with
                        | Some s => s
                        | None => custom_id w h
                        end;
            isInfinite := Some false |})
    prev.

End CustomFormat.

End UsePageFormat.

(* ===================================================================== *)
(** * The cursor-list hook: [useMultipleCursors] *)
(* ===================================================================== *)

Module UseMultipleCursors.

(** [enum CursorType] *)
Inductive CursorType : Type :=
| Standard | ThinLeft | ShortThinTopLeft | CurrentArea | CurrentAreaLeft.

(** [interface CursorOptions] *)
Record CursorOptions : Type := mkCursor {
  type : CursorType;
  color : string;
  alpha : Q;
  follow : bool
}.

(** [Partial<CursorOptions>]: [None] is a key that is not present. *)
Record PartialCursorOptions : Type := mkPartial {
  type_opt : option CursorType;
  color_opt : option string;
  alpha_opt : option Q;
  follow_opt : option bool
}.

(** [{ ...cursor, ...update }] *)
Definition spread (cursor : CursorOptions) (update : PartialCursorOptions)
  : CursorOptions :=
  {| type := default (type cursor) (type_opt update);
     color := default (color cursor) (color_opt update);
     alpha := default (alpha cursor) (alpha_opt update);
     follow := default (follow cursor) (follow_opt update) |}.

(** [Array.prototype.filter] and [Array.prototype.map] hand the callback
    the element and its position; [i] is the position of the head. *)
Fixpoint filter_from {A : Type} (keep : A -> nat -> bool) (i : nat)
  (l : list A) : list A :=
  match l with
  | [] => []
  | x :: rest =>
      if keep x i then x :: filter_from keep (S i) rest
      else filter_from keep (S i) rest
  end.

Definition array_filter {A : Type} (keep : A -> nat -> bool) (l : list A)
  : list A := filter_from keep 0 l.

Fixpoint map_from {A B : Type} (f : A -> nat -> B) (i : nat) (l : list A)
  : list B :=
  match l with
  | [] => []
  | x :: rest => f x i :: map_from f (S i) rest
  end.

Definition array_map {A B : Type} (f : A -> nat -> B) (l : list A) : list B :=
  map_from f 0 l.

(** [i === index], for a position [i] and an integer [index]. *)
Definition same_index (i : nat) (index : Z) : bool := (Z.of_nat i =? index)%Z.

(** The state is the [cursors] cell; every operation is the functional
    update handed to [setCursors]. *)
Definition addCursor (cursor : CursorOptions) (prev : list CursorOptions)
  : list CursorOptions := prev ++ [cursor].

Definition removeCursor (index : Z) (prev : list CursorOptions)
  : list CursorOptions :=
  array_filter (fun _ i => negb (same_index i index)) prev.

Definition updateCursor (index : Z) (update : PartialCursorOptions)
  (prev : list CursorOptions) : list CursorOptions :=
  array_map (fun cursor i =>
               if same_index i index then spread cursor update else cursor)
            prev.

Definition clearCursors (prev : list CursorOptions) : list CursorOptions := [].

(** An index that is none of the positions [i], [i+1], ... of a list. *)
Definition misses {A : Type} (index : Z) (i : nat) (l : list A) : Prop :=
  (index < Z.of_nat i \/ Z.of_nat (i + length l) <= index)%Z.

(** [createDefaultCursor] *)
Definition createDefaultCursor (overrides : PartialCursorOptions)
  : CursorOptions :=
  spread {| type := Standard; color := "#33e02f"; alpha := 1 # 2;
            follow := false |} overrides.

End UseMultipleCursors.

(* ===================================================================== *)
(** * The coloring hook: [useColoring] *)
(* ===================================================================== *)

Module UseColoring.

(** [enum ColoringMode] *)
Inductive ColoringMode : Type := XML | Boomwhacker | CustomColorSet.

Definition ColoringMode_eqb (a b : ColoringMode) : bool :=
  match a, b with
  | XML, XML | Boomwhacker, Boomwhacker | CustomColorSet, CustomColorSet => true
  | _, _ => false
  end.

(** [interface UseColoringOptions]: three optional members. *)
Record UseColoringOptions : Type := mkOptions {
  mode : option ColoringMode;
  customColors_opt : option (list string);
  enabled : option bool
}.

(** The default argument [initialOptions = {}]. *)
Definition no_options : UseColoringOptions := mkOptions None None None.

Definition defaultBoomwhackerColors : list string :=
  [ "#ff0000"; "#ff7f00"; "#ffff00"; "#00ff00";
    "#0000ff"; "#4b0082"; "#9400d3"; "#000000" ].

(** The four [useState] cells. *)
Record State : Type := mkState {
  coloringMode : ColoringMode;
  customColors : list string;
  coloringEnabled : bool;
  darkMode : bool
}.

(** The first render: every cell takes its initial value. *)
Definition useColoring (initialOptions : UseColoringOptions) : State :=
  {| coloringMode := default XML (mode initialOptions);
     customColors := default defaultBoomwhackerColors
                             (customColors_opt initialOptions);
     coloringEnabled := default false (enabled initialOptions);
     darkMode := false |}.

Definition setColoringMode (m : ColoringMode) (st : State) : State :=
  {| coloringMode := m; customColors := customColors st;
     coloringEnabled := coloringEnabled st; darkMode := darkMode st |}.

Definition setCustomColors (colors : list string) (st : State) : State :=
  {| coloringMode := coloringMode st; customColors := colors;
     coloringEnabled := coloringEnabled st; darkMode := darkMode st |}.

Definition setColoringEnabled (b : bool) (st : State) : State :=
  {| coloringMode := coloringMode st; customColors := customColors st;
     coloringEnabled := b; darkMode := darkMode st |}.

Definition setDarkMode (b : bool) (st : State) : State :=
  {| coloringMode := coloringMode st; customColors := customColors st;
     coloringEnabled := coloringEnabled st; darkMode := b |}.

(** What a consumer can do with the hook between two renders. *)
Inductive Action : Type :=
| SetColoringMode (m : ColoringMode)
| SetCustomColors (colors : list string)
| SetColoringEnabled (b : bool)
| SetDarkMode (b : bool).

Definition step (st : State) (a : Action) : State :=
  match a with
  | SetColoringMode m => setColoringMode m st
  | SetCustomColors colors => setCustomColors colors st
  | SetColoringEnabled b => setColoringEnabled b st
  | SetDarkMode b => setDarkMode b st
  end.

Definition run (initialOptions : UseColoringOptions) (actions : list Action)
  : State := fold_left step actions (useColoring initialOptions).

Definition is_SetDarkMode_true (a : Action) : bool :=
  match a with
  | SetDarkMode true => true
  | _ => false
  end.

(** The derived options object of [getOptions]. *)
Record DerivedOptions : Type := mkDerived {
  opt_coloringMode : ColoringMode;
  opt_coloringEnabled : bool;
  opt_coloringSetCustom : option (list string);
  opt_darkMode : bool
}.

Definition getOptions (st : State) : DerivedOptions :=
  {| opt_coloringMode := coloringMode st;
     opt_coloringEnabled := coloringEnabled st;
     opt_coloringSetCustom :=
       if ColoringMode_eqb (coloringMode st) CustomColorSet
       then Some (customColors st) else None;
     opt_darkMode := darkMode st |}.

End UseColoring.

(* ===================================================================== *)
(** * Effects: state, exceptions, [try]/[catch]/[finally] *)
(* ===================================================================== *)

Module Effect.

Import Js.

(** A computation over a store [S]. *)
Definition M (S A : Type) : Type := S -> Result A * S.

Definition ret {S A : Type} (a : A) : M S A := fun s => (Returned a, s).

Definition bind {S A B : Type} (m : M S A) (k : A -> M S B) : M S B :=
  fun s =>
    match m s with
    | (Returned a, s') => k a s'
    | (Raised v, s') => (Raised v, s')
    end.

(** [throw v] *)
Definition raise {S A : Type} (v : Thrown) : M S A := fun s => (Raised v, s).

Definition get_state {S : Type} : M S S := fun s => (Returned s, s).

Definition modify {S : Type} (f : S -> S) : M S unit :=
  fun s => (Returned tt, f s).

(** [try { body } catch (err) { handler }] *)
Definition try_catch {S A : Type} (body : M S A) (handler : Thrown -> M S A)
  : M S A :=
  fun s =>
    match body s with
    | (Returned a, s') => (Returned a, s')
    | (Raised v, s') => handler v s'
    end.

(** [try { body } finally { finalizer }]: the finalizer runs whichever
    way the body ends; the body's completion stands unless the finalizer
    itself throws. *)
Definition try_finally {S A : Type} (body : M S A) (finalizer : M S unit)
  : M S A :=
  fun s =>
    match body s with
    | (r, s') =>
        match finalizer s' with
        | (Returned _, s'') => (r, s'')
        | (Raised v, s'') => (Raised v, s'')
        end
    end.

(** [try { body } catch (err) { handler } finally { finalizer }] *)
Definition try_catch_finally {S A : Type} (body : M S A)
  (handler : Thrown -> M S A) (finalizer : M S unit) : M S A :=
  try_finally (try_catch body handler) finalizer.

(** Calling an [async] function without awaiting it: the caller goes on
    whatever the promise does; a rejection nobody handles is dropped.  The
    callee is run to completion in place. *)
Definition detached {S : Type} (m : M S unit) : M S unit :=
  fun s => (Returned tt, snd (m s)).

(** Running a computation on a part of the store. *)
Definition zoom_on {S T A : Type} (proj : T -> S) (inj : S -> T -> T)
  (m : M S A) : M T A :=
  fun t => match m (proj t) with (r, s') => (r, inj s' t) end.

Definition result_of {S A : Type} (m : M S A) (s : S) : Result A := fst (m s).
Definition state_after {S A : Type} (m : M S A) (s : S) : S := snd (m s).

End Effect.

Declare Scope eff_scope.
Delimit Scope eff_scope with eff.
Notation "x <- m ;; k" := (Effect.bind m (fun x => k))
  (at level 100, m at next level, k at level 200, right associativity)
  : eff_scope.
Notation "m ;; k" := (Effect.bind m (fun _ => k))
  (at level 100, k at level 200, right associativity) : eff_scope.

(* ===================================================================== *)
(** * The engine-binding hook: [src/hooks/useOSMD.ts] *)
(* ===================================================================== *)

Module UseOSMD.

Import Js Effect.
#[local] Open Scope eff_scope.

(** ** The rendering engine, seen from the adapter *)

(** The container element, by identity. *)
Definition Container : Type := nat.

(** The options bag handed to the engine's constructor. *)
Inductive OptionValue : Type :=
| OptBool (b : bool)
| OptNumber (q : Q)
| OptString (s : string)
| OptObject (ref : nat).

Definition Options : Type := gmap string OptionValue.

(** A [Document] is either an object the consumer supplied, known by its
    identity, or the result of [DOMParser.parseFromString]. *)
Inductive Document : Type :=
| HostDocument (ref : nat)
| ParsedDocument (text : string) (mimeType : string).

(** [new DOMParser().parseFromString(text, mimeType)] *)
Definition parseFromString (text mimeType : string) : Document :=
  ParsedDocument text mimeType.

(** [string | Document | Blob]: what the engine's [load] accepts. *)
Inductive Source : Type :=
| Path (s : string)
| Doc (d : Document)
| BlobSource (ref : nat).

(** Everything observable, in program order. *)
Inductive Event : Type :=
| Construct (container : Container) (options : Options)
| EngineLoad (source : Source) (title : option string)
| EngineRender
| EngineClear
| SetOsmd
| SetZoomValue (z : Q)
| SetIsLoading (b : bool)
| SetError (e : option Thrown)
| OnLoad
| OnError (e : Thrown).

Definition Trace : Type := list Event.

(** How a call into the engine (or into a callback) ends. *)
Inductive Outcome : Type :=
| Completes
| Throws (v : Thrown).

(** An engine instance.  The engine is a black box: how a call ends may
    depend on its arguments and on everything that happened before. *)
Record Engine : Type := mkEngine {
  zoom : Q;
  load_outcome : Trace -> Source -> option string -> Outcome;
  render_outcome : Trace -> Outcome;
  clear_outcome : Trace -> Outcome
}.

(** [new OpenSheetMusicDisplay(container, options)]: an instance, or a
    thrown value. *)
Definition Constructor : Type :=
  Trace -> Container -> Options -> Engine + Thrown.

(** ** The hook's cells *)

Record State : Type := mkState {
  osmd : option Engine;        (* useState *)
  isLoading : bool;            (* useState *)
  error : option Thrown;       (* useState: Error | null *)
  zoomValue : Q;               (* useState *)
  initRef : bool;              (* useRef *)
  osmdRef : option Engine;     (* useRef *)
  trace : Trace                (* most recent event last *)
}.

(** The cells on the first render. *)
Definition initial : State :=
  {| osmd := None; isLoading := false; error := None; zoomValue := 1;
     initRef := false; osmdRef := None; trace := [] |}.

Definition emit (e : Event) : M State unit :=
  modify (fun st =>
    {| osmd := osmd st; isLoading := isLoading st; error := error st;
       zoomValue := zoomValue st; initRef := initRef st;
       osmdRef := osmdRef st; trace := trace st ++ [e] |}).

Definition setOsmd (instance : Engine) : M State unit :=
  emit SetOsmd ;;
  modify (fun st =>
    {| osmd := Some instance; isLoading := isLoading st; error := error st;
       zoomValue := zoomValue st; initRef := initRef st;
       osmdRef := osmdRef st; trace := trace st |}).

Definition setIsLoading (b : bool) : M State unit :=
  emit (SetIsLoading b) ;;
  modify (fun st =>
    {| osmd := osmd st; isLoading := b; error := error st;
       zoomValue := zoomValue st; initRef := initRef st;
       osmdRef := osmdRef st; trace := trace st |}).

Definition setError (e : option Thrown) : M State unit :=
  emit (SetError e) ;;
  modify (fun st =>
    {| osmd := osmd st; isLoading := isLoading st; error := e;
       zoomValue := zoomValue st; initRef := initRef st;
       osmdRef := osmdRef st; trace := trace st |}).

Definition setZoomValue (z : Q) : M State unit :=
  emit (SetZoomValue z) ;;
  modify (fun st =>
    {| osmd := osmd st; isLoading := isLoading st; error := error st;
       zoomValue := z; initRef := initRef st;
       osmdRef := osmdRef st; trace := trace st |}).

(** [initRef.current = b] *)
Definition write_initRef (b : bool) : M State unit :=
  modify (fun st =>
    {| osmd := osmd st; isLoading := isLoading st; error := error st;
       zoomValue := zoomValue st; initRef := b;
       osmdRef := osmdRef st; trace := trace st |}).

(** [osmdRef.current = instance] *)
Definition write_osmdRef (instance : Engine) : M State unit :=
  modify (fun st =>
    {| osmd := osmd st; isLoading := isLoading st; error := error st;
       zoomValue := zoomValue st; initRef := initRef st;
       osmdRef := Some instance; trace := trace st |}).

Definition settle (o : Outcome) : M State unit :=
  match o with
  | Completes => ret tt
  | Throws v => raise v
  end.

(** A method call on [osmdRef.current]: the call is recorded, then it
    ends the way the engine decides.  Calling a method on [null] is a
    [TypeError]. *)
Definition call_engine (e : Event) (outcome : Engine -> Trace -> Outcome)
  : M State unit :=
  st <- get_state ;;
  match osmdRef st with
  | None => raise (new_Error "Cannot read properties of null")
  | Some engine =>
      emit e ;;
      st' <- get_state ;;
      settle (outcome engine (trace st'))
  end.

(** [await osmdRef.current.load(file, title)] *)
Definition engine_load (file : Source) (title : option string)
  : M State unit :=
  call_engine (EngineLoad file title)
              (fun engine tr => load_outcome engine tr file title).

(** [osmdRef.current.render()] *)
Definition engine_render : M State unit :=
  call_engine EngineRender render_outcome.

(** [osmdRef.current.clear()] *)
Definition engine_clear : M State unit :=
  call_engine EngineClear clear_outcome.

(** [instance.zoom || 1] *)
Definition zoom_or_1 (z : Q) : Q := if Qeq_bool z 0 then 1 else z.

(** ** The initialization effect (lines 17-39) *)

(** The cleanup the effect returns. *)
Definition cleanup : M State unit :=
  st <- get_state ;;
  match osmdRef st with
  | Some _ => try_catch engine_clear (fun _ => ret tt)
  | None => ret tt
  end.

(** [new OpenSheetMusicDisplay(containerRef.current, initialOptions)] *)
Definition construct (ctor : Constructor) (container : Container)
  (initialOptions : Options) : M State Engine :=
  emit (Construct container initialOptions) ;;
  st <- get_state ;;
  match ctor (trace st) container initialOptions with
  | inl instance => ret instance
  | inr v => raise v
  end.

(** One run of the effect.  [container] is [containerRef.current]; the
    result is the cleanup the run registers, if any. *)
Definition init_effect (ctor : Constructor) (container : option Container)
  (initialOptions : Options) : M State (option (M State unit)) :=
  st <- get_state ;;
  match container with
  | None => ret None
  | Some c =>
      if initRef st then ret None
      else
        try_catch
          (instance <- construct ctor c initialOptions ;;
           write_osmdRef instance ;;
           setOsmd instance ;;
           setZoomValue (zoom_or_1 (zoom instance)) ;;
           write_initRef true)
          (fun err =>
             setError (Some (as_Error "Failed to initialize OSMD" err))) ;;
        ret (Some cleanup)
  end.

(** ** [load] (lines 42-63) *)
Definition load (file : Source) (title : option string) : M State unit :=
  st <- get_state ;;
  match osmdRef st with
  | None => raise (new_Error "OSMD instance not initialized")
  | Some _ =>
      setIsLoading true ;;
      setError None ;;
      try_catch_finally
        (engine_load file title ;;
         engine_render)
        (fun err =>
           let error := as_Error "Failed to load music" err in
           setError (Some error) ;;
           raise error)
        (setIsLoading false)
  end.

(** ** [clear] (lines 96-101) *)
Definition clear : M State unit :=
  st <- get_state ;;
  match osmdRef st with
  | Some _ =>
      engine_clear ;;
      setError None
  | None => ret tt
  end.

(** ** Vocabulary for the statements *)

(** The store [st] after a call that appended [events] to the trace and
    left [isLoading] at [loading] and [error] at [err]; every other cell is
    as it was. *)
Definition settled (st : State) (loading : bool) (err : option Thrown)
  (events : list Event) : State :=
  {| osmd := osmd st; isLoading := loading; error := err;
     zoomValue := zoomValue st; initRef := initRef st;
     osmdRef := osmdRef st; trace := trace st ++ events |}.

(** The events a call to [load] issues up to and including the engine's
    [load]. *)
Definition issued (file : Source) (title : option string) : list Event :=
  [SetIsLoading true; SetError None; EngineLoad file title].

(** The calls into the engine among the events of a trace. *)
Definition is_engine_call (e : Event) : bool :=
  match e with
  | Construct _ _ | EngineLoad _ _ | EngineRender | EngineClear => true
  | _ => false
  end.

Definition engine_calls (tr : Trace) : list Event :=
  List.filter is_engine_call tr.

(** The message of the error raised by [load], [render] and [setOptions]
    when no instance exists. *)
Definition NotInitialized : Thrown :=
  new_Error "OSMD instance not initialized".

End UseOSMD.

(* ===================================================================== *)
(** * The engine-binding hook, second revision: [unnamed/part_003] *)
(* ===================================================================== *)

(** The repository holds a second copy of [useOSMD].  It differs from
    [src/hooks/useOSMD.ts] in the initialization effect, whose [catch] block
    also sets the [initRef] latch, in [load], which goes through optional
    calls, and in the [hidden] setter of the cursor facet.  The cells, the
    setters and [clear] are the same. *)
Module UseOSMD_rev.

Import Js Effect UseOSMD.
#[local] Open Scope eff_scope.

(** The initialization effect (lines 37-61). *)
Definition init_effect (ctor : Constructor) (container : option Container)
  (initialOptions : Options) : M State (option (M State unit)) :=
  st <- get_state ;;
  match container with
  | None => ret None
  | Some c =>
      if initRef st then ret None
      else
        try_catch
          (instance <- construct ctor c initialOptions ;;
           write_osmdRef instance ;;
           setOsmd instance ;;
           setZoomValue (zoom_or_1 (zoom instance)) ;;
           write_initRef true)
          (fun err =>
             setError (Some (as_Error "Failed to initialize OSMD" err)) ;;
             (* Prevent retrying initialization on subsequent effect runs *)
             write_initRef true) ;;
        ret (Some cleanup)
  end.

(** [osmdRef.current?.render()] *)
Definition engine_render_if_bound : M State unit :=
  st <- get_state ;;
  match osmdRef st with
  | Some _ => engine_render
  | None => ret tt
  end.

(** [load] (lines 64-85).  [load] is a method of every
    [OpenSheetMusicDisplay], so the optional call [load?.(file, title)]
    is a call. *)
Definition load (file : Source) (title : option string) : M State unit :=
  st <- get_state ;;
  match osmdRef st with
  | None => raise (new_Error "OSMD instance not initialized")
  | Some _ =>
      setIsLoading true ;;
      setError None ;;
      try_catch_finally
        (engine_load file title ;;
         engine_render_if_bound)
        (fun err =>
           let error := as_Error "Failed to load music" err in
           setError (Some error) ;;
           raise error)
        (setIsLoading false)
  end.

(** [clear] (lines 118-123) is [UseOSMD.clear], word for word. *)
Definition clear : M State unit := UseOSMD.clear.

End UseOSMD_rev.

(* ===================================================================== *)
(** * The activation of the hook: successive runs of the init effect *)
(* ===================================================================== *)

Module Activation.

Import Js Effect UseOSMD.

(** One run of the initialization effect: what [containerRef.current]
    and [initialOptions] are when React runs it. *)
Record Run : Type := mkRun {
  container : option Container;
  initialOptions : Options
}.

Definition InitEffect : Type :=
  Constructor -> option Container -> Options ->
  M State (option (M State unit)).

(** The runs of one activation, in order, from a given store.  The result
    of each run is kept next to the store it leaves. *)
Fixpoint run_all (effect : InitEffect) (ctor : Constructor)
  (runs : list Run) (st : State)
  : list (Result (option (M State unit))) * State :=
  match runs with
  | [] => ([], st)
  | r :: rest =>
      match effect ctor (container r) (initialOptions r) st with
      | (res, st') =>
          match run_all effect ctor rest st' with
          | (ress, st'') => (res :: ress, st'')
          end
      end
  end.

Definition is_Construct (e : Event) : bool :=
  match e with
  | Construct _ _ => true
  | _ => false
  end.

(** How many times the constructor was called. *)
Definition constructions (tr : Trace) : nat :=
  length (List.filter is_Construct tr).

Definition has_container (r : Run) : bool :=
  match container r with
  | Some _ => true
  | None => false
  end.

Definition is_Raised {A : Type} (r : Result A) : bool :=
  match r with
  | Raised _ => true
  | Returned _ => false
  end.

(** What can happen to the hook during an activation: a run of the init
    effect, a call of [load] or [clear] by the consumer, a run of the
    cleanup. *)
Inductive Call : Type :=
| RunInit (r : Run)
| CallLoad (file : Source) (title : option string)
| CallClear
| RunCleanup.

Definition perform (effect : InitEffect) (ctor : Constructor)
  (st : State) (c : Call) : State :=
  match c with
  | RunInit r => snd (effect ctor (container r) (initialOptions r) st)
  | CallLoad file title => snd (load file title st)
  | CallClear => snd (clear st)
  | RunCleanup => snd (cleanup st)
  end.

(** The stores an activation can be in. *)
Definition reachable (effect : InitEffect) (ctor : Constructor)
  (st : State) : Prop :=
  exists calls, st = fold_left (perform effect ctor) calls initial.

(** The [osmd] cell and the [osmdRef] cell hold the same instance, and
    nothing is loading while there is none. *)
Definition consistent (st : State) : Prop :=
  (osmd st = None <-> osmdRef st = None) /\
  (osmdRef st = None -> isLoading st = false).

(** The store after a run that constructed [instance]. *)
Definition constructed (st : State) (instance : Engine) (c : Container)
  (opts : Options) : State :=
  {| osmd := Some instance; isLoading := isLoading st; error := error st;
     zoomValue := zoom_or_1 (zoom instance); initRef := true;
     osmdRef := Some instance;
     trace := trace st ++ [Construct c opts; SetOsmd;
                           SetZoomValue (zoom_or_1 (zoom instance))] |}.

(** The store after a run whose construction threw [v]; [latch] is what
    the run leaves in [initRef]. *)
Definition construction_failed (st : State) (latch : bool) (v : Thrown)
  (c : Container) (opts : Options) : State :=
  let failure := as_Error "Failed to initialize OSMD" v in
  {| osmd := osmd st; isLoading := isLoading st; error := Some failure;
     zoomValue := zoomValue st; initRef := latch; osmdRef := osmdRef st;
     trace := trace st ++ [Construct c opts; SetError (Some failure)] |}.

(** The result of a run that went through the [try] statement: it
    returns, and registers the cleanup. *)
Definition registered : Result (option (M State unit)) :=
  Returned (Some cleanup).

(** The result of a run that returned at the guard. *)
Definition skipped : Result (option (M State unit)) := Returned None.

End Activation.

(* ===================================================================== *)
(** * The component: [src/components/SheetMusic.tsx] *)
(* ===================================================================== *)

Module SheetMusic.

Import Js Effect UseOSMD.
#[local] Open Scope eff_scope.

(** The [file] prop: [string | Document | Blob].  Objects are known by
    their identity, which is what [!==] compares. *)
Inductive FileProp : Type :=
| FilePath (s : string)
| FileDocument (ref : nat)
| FileBlob (ref : nat).

#[global] Instance FileProp_eq_dec : EqDecision FileProp.
Proof. solve_decision. Defined.

(** A callback supplied by the consumer; it may throw. *)
Definition Callback : Type := Trace -> Outcome.

(** [SheetMusicProps], without [className] and [style]. *)
Record Props : Type := mkProps {
  file : option FileProp;
  musicXML : option string;
  options : Options;
  onLoad : option Callback;
  onError : option Callback;
  autoResize : option bool
}.

(** The cells of the component: the hook's, and the two [useRef] cells
    that remember what was last submitted. *)
Record State : Type := mkState {
  hook : UseOSMD.State;
  prevFileRef : option FileProp;
  prevMusicXMLRef : option string
}.

Definition initial : State :=
  {| hook := UseOSMD.initial; prevFileRef := None; prevMusicXMLRef := None |}.

Definition in_hook {A : Type} (m : M UseOSMD.State A) : M State A :=
  zoom_on hook
          (fun h st => {| hook := h; prevFileRef := prevFileRef st;
                          prevMusicXMLRef := prevMusicXMLRef st |})
          m.

(** [prevFileRef.current = file] *)
Definition write_prevFileRef (f : option FileProp) : M State unit :=
  modify (fun st => {| hook := hook st; prevFileRef := f;
                       prevMusicXMLRef := prevMusicXMLRef st |}).

(** [prevMusicXMLRef.current = musicXML] *)
Definition write_prevMusicXMLRef (x : option string) : M State unit :=
  modify (fun st => {| hook := hook st; prevFileRef := prevFileRef st;
                       prevMusicXMLRef := x |}).

(** [{ ...options, autoResize }], with the default [autoResize = true]. *)
Definition hook_options (p : Props) : Options :=
  <[ "autoResize" := OptBool (default true (autoResize p)) ]> (options p).

(** Truthiness of the two props. *)
Definition truthy_file (f : option FileProp) : bool :=
  match f with
  | None => false
  | Some (FilePath s) => truthy_string s
  | Some (FileDocument _) => true
  | Some (FileBlob _) => true
  end.

Definition truthy_musicXML (x : option string) : bool :=
  match x with
  | None => false
  | Some s => truthy_string s
  end.

(** [file === ''] *)
Definition is_empty_path (f : FileProp) : bool :=
  match f with
  | FilePath s => is_empty s
  | _ => false
  end.

(** The [file] prop as a load source: it is passed through. *)
Definition source_of_file (f : FileProp) : Source :=
  match f with
  | FilePath s => Path s
  | FileDocument ref => Doc (HostDocument ref)
  | FileBlob ref => BlobSource ref
  end.

Definition call_back (e : Event) (cb : option Callback) : M State unit :=
  match cb with
  | None => ret tt
  | Some f =>
      in_hook (emit e ;;
               st <- get_state ;;
               settle (f (trace st)))
  end.

(** The first part of the [try] block of [loadMusic] (lines 38-53): the
    source to load, or [None] where the block returns early. *)
Definition resolve_source (p : Props) : M State (option Source) :=
  if truthy_musicXML (musicXML p) then
    match musicXML p with
    | Some xml =>
        if is_empty (trim xml) then ret None
        else
          (let source := Doc (parseFromString xml "text/xml") in
           write_prevMusicXMLRef (musicXML p) ;;
           ret (Some source))
    | None => ret None
    end
  else if truthy_file (file p) then
    match file p with
    | Some f =>
        if is_empty_path f then ret None
        else
          (write_prevFileRef (file p) ;;
           ret (Some (source_of_file f)))
    | None => ret None
    end
  else ret None.

(** [loadMusic] (lines 36-61). *)
Definition loadMusic (p : Props) : M State unit :=
  try_catch
    (resolved <- resolve_source p ;;
     match resolved with
     | None => ret tt
     | Some source =>
         in_hook (UseOSMD.load source None) ;;
         call_back OnLoad (onLoad p)
     end)
    (fun err =>
       let error := as_Error "Failed to load music" err in
       call_back (OnError error) (onError p)).

(** The load effect (lines 24-64), run with the props of a render. *)
Definition load_effect (p : Props) : M State unit :=
  st <- get_state ;;
  match osmd (hook st) with
  | None => ret tt
  | Some _ =>
      let fileChanged := negb (bool_decide (file p = prevFileRef st)) in
      let xmlChanged := negb (bool_decide (musicXML p = prevMusicXMLRef st)) in
      if (negb fileChanged && negb xmlChanged)%bool then ret tt
      else if (negb (truthy_file (file p))
               && negb (truthy_musicXML (musicXML p)))%bool then ret tt
      else detached (loadMusic p)
  end.

(** The error effect (lines 66-70). *)
Definition error_effect (p : Props) : M State unit :=
  st <- get_state ;;
  match error (hook st), onError p with
  | Some e, Some _ => call_back (OnError e) (onError p)
  | _, _ => ret tt
  end.

(** The engine calls among the events of a trace. *)
Definition loads_of (tr : Trace) : list Source :=
  omap (fun e => match e with
                 | EngineLoad source _ => Some source
                 | _ => None
                 end) tr.

(** ** Vocabulary for the statements *)

(** The hook's store went from [h] to [h'] by appending events to the
    trace, among which the engine's [load] was called with exactly
    [loads], and the binding to the engine did not change. *)
Definition grows (h h' : UseOSMD.State) (loads : list Source) : Prop :=
  exists events,
    trace h' = trace h ++ events /\
    loads_of events = loads /\
    osmdRef h' = osmdRef h.

(** The sources [load] hands to the engine from the store [h]: the one it
    was given when an instance is bound, none otherwise. *)
Definition handed_over (h : UseOSMD.State) (source : Source) : list Source :=
  match osmdRef h with
  | Some _ => [source]
  | None => []
  end.

End SheetMusic.

(* ===================================================================== *)
(** * Sample inputs *)
(* ===================================================================== *)

Module Samples.

Import Js Effect.

(** Two cursors and a partial update. *)
Definition red : UseMultipleCursors.CursorOptions :=
  UseMultipleCursors.mkCursor UseMultipleCursors.Standard "#ff0000" (1 # 2) false.
Definition blue : UseMultipleCursors.CursorOptions :=
  UseMultipleCursors.mkCursor UseMultipleCursors.ThinLeft "#0000ff" (3 # 10) true.
Definition opaque_green : UseMultipleCursors.PartialCursorOptions :=
  UseMultipleCursors.mkPartial None (Some "#00ff00") (Some 1%Q) None.

(** An engine whose calls all complete, one whose [load] rejects with a
    given value, and one whose [render] throws it. *)
Definition steady_engine : UseOSMD.Engine :=
  UseOSMD.mkEngine 1 (fun _ _ _ => UseOSMD.Completes)
                   (fun _ => UseOSMD.Completes) (fun _ => UseOSMD.Completes).

Definition rejecting_engine (v : Thrown) : UseOSMD.Engine :=
  UseOSMD.mkEngine 1 (fun _ _ _ => UseOSMD.Throws v)
                   (fun _ => UseOSMD.Completes) (fun _ => UseOSMD.Completes).

Definition unrenderable_engine (v : Thrown) : UseOSMD.Engine :=
  UseOSMD.mkEngine 1 (fun _ _ _ => UseOSMD.Completes)
                   (fun _ => UseOSMD.Throws v) (fun _ => UseOSMD.Completes).

(** An engine whose [load] rejects with [l] and whose [clear] throws [c]. *)
Definition broken_engine (l c : Thrown) : UseOSMD.Engine :=
  UseOSMD.mkEngine 1 (fun _ _ _ => UseOSMD.Throws l)
                   (fun _ => UseOSMD.Completes) (fun _ => UseOSMD.Throws c).

(** The hook once the init effect has bound it to [engine]. *)
Definition bound_to (engine : UseOSMD.Engine) : UseOSMD.State :=
  {| UseOSMD.osmd := Some engine; UseOSMD.isLoading := false;
     UseOSMD.error := None; UseOSMD.zoomValue := 1;
     UseOSMD.initRef := true; UseOSMD.osmdRef := Some engine;
     UseOSMD.trace := [] |}.

(** A constructor that throws on every call, and one that always yields
    [steady_engine]. *)
Definition failing_constructor : UseOSMD.Constructor :=
  fun _ _ _ => inr (ErrorObject "Init failed").

Definition working_constructor : UseOSMD.Constructor :=
  fun _ _ _ => inl steady_engine.

(** A run of the init effect with the container mounted and no options. *)
Definition mounted : Activation.Run := Activation.mkRun (Some 0) ∅.

(** The component once the hook is bound to [engine], before any load. *)
Definition ready (engine : UseOSMD.Engine) : SheetMusic.State :=
  {| SheetMusic.hook := bound_to engine;
     SheetMusic.prevFileRef := None;
     SheetMusic.prevMusicXMLRef := None |}.

Definition props_of (file : option SheetMusic.FileProp)
  (musicXML : option string) : SheetMusic.Props :=
  SheetMusic.mkProps file musicXML ∅ None None None.

(** [<SheetMusic file="" />] *)
Definition empty_file_props : SheetMusic.Props :=
  props_of (Some (SheetMusic.FilePath "")) None.

Definition score : string :=
  "<?xml version='1.0'?><score-partwise></score-partwise>".

End Samples.

(* ===================================================================== *)
(** * The engine-binding hook: rendering and zoom *)
(* ===================================================================== *)

Module UseOSMD_ops.

Import Js Effect UseOSMD.
#[local] Open Scope eff_scope.

(** [render] (lines 66-71). *)
Definition render : M State unit :=
  st <- get_state ;;
  match osmdRef st with
  | None => raise NotInitialized
  | Some _ => engine_render
  end.

(** The instance with its [zoom] field set to [scale]. *)
Definition with_zoom (scale : Q) (engine : Engine) : Engine :=
  {| zoom := scale; load_outcome := load_outcome engine;
     render_outcome := render_outcome engine;
     clear_outcome := clear_outcome engine |}.

(** [osmdRef.current.zoom = scale].  The instance is one object: the
    [osmd] cell, which holds the same reference, sees the write. *)
Definition write_zoom (scale : Q) : M State unit :=
  modify (fun st =>
    {| osmd := with_zoom scale <$> osmd st; isLoading := isLoading st;
       error := error st; zoomValue := zoomValue st; initRef := initRef st;
       osmdRef := with_zoom scale <$> osmdRef st; trace := trace st |}).

(** [setZoom] (lines 114-120). *)
Definition setZoom (scale : Q) : M State unit :=
  st <- get_state ;;
  match osmdRef st with
  | Some _ =>
      write_zoom scale ;;
      setZoomValue scale ;;
      engine_render
  | None => ret tt
  end.

(** The [zoom] field of the bound instance. *)
Definition engine_zoom (st : State) : option Q := zoom <$> osmdRef st.

(** How many times the engine's [render] was called. *)
Definition renders (tr : Trace) : nat :=
  length (List.filter (fun e => match e with EngineRender => true | _ => false end)
                      tr).

End UseOSMD_ops.

(* ===================================================================== *)
(** * The engine-binding hook: optional members and the cursor facet *)
(* ===================================================================== *)

(** The hook probes the instance for members it may lack
    ([typeof ... === 'function']) and for a [cursor] object.  They are kept
    next to the cells of [UseOSMD.State], with a log of the calls made to
    them. *)
Module UseOSMD_facets.

Import Js Effect UseOSMD.
#[local] Open Scope eff_scope.

(** The methods of the engine's cursor that the facet forwards to. *)
Inductive CursorMethod : Type :=
| CursorShow | CursorHide | CursorNext | CursorPrevious
| CursorNextMeasure | CursorPreviousMeasure
| CursorReset | CursorResetIterator | CursorUpdate.

(** The methods the facet calls only after [typeof ... === 'function']. *)
Definition probed (m : CursorMethod) : bool :=
  match m with
  | CursorNextMeasure | CursorPreviousMeasure
  | CursorResetIterator | CursorUpdate => true
  | _ => false
  end.

(** Calls to optional members, in program order. *)
Inductive Call : Type :=
| RenderAndScrollBack
| UpdateGraphic
| SetOptions (options : Options)
| IsReadyToRender
| CursorCall (m : CursorMethod).

(** The engine's cursor object: two mutable fields, either of which may be
    absent, and the methods it has.  How a method ends is the engine's
    business; the methods are taken not to write the two fields. *)
Record Cursor : Type := mkCursorObject {
  Hidden : option bool;
  SkipInvisibleNotes : option bool;
  has : CursorMethod -> bool;
  cursor_outcome : CursorMethod -> list Call -> Outcome
}.

(** The optional members of the instance. *)
Record Members : Type := mkMembers {
  renderAndScrollBack_member : option (list Call -> Outcome);
  updateGraphic_member : option (list Call -> Outcome);
  setOptions_member : option (Options -> list Call -> Outcome);
  IsReadyToRender_member : option (list Call -> Result bool);
  cursor_member : option Cursor
}.

Record Store : Type := mkStore {
  cells : UseOSMD.State;
  members : Members;     (* of the instance in [osmdRef.current], if any *)
  calls : list Call      (* most recent call last *)
}.

Definition in_cells {A : Type} (m : M UseOSMD.State A) : M Store A :=
  zoom_on cells
          (fun c st => {| cells := c; members := members st;
                          calls := calls st |})
          m.

Definition record (c : Call) : M Store unit :=
  modify (fun st => {| cells := cells st; members := members st;
                       calls := calls st ++ [c] |}).

Definition finish (o : Outcome) : M Store unit :=
  match o with
  | Completes => ret tt
  | Throws v => raise v
  end.

(** A call of an optional member that was found to be a function. *)
Definition call_member (c : Call) (f : list Call -> Outcome) : M Store unit :=
  record c ;;
  st <- get_state ;;
  finish (f (calls st)).

(** [renderAndScrollBack] (lines 74-83). *)
Definition renderAndScrollBack : M Store unit :=
  st <- get_state ;;
  match osmdRef (cells st) with
  | None => raise NotInitialized
  | Some _ =>
      match renderAndScrollBack_member (members st) with
      | Some f => call_member RenderAndScrollBack f
      | None => in_cells engine_render
      end
  end.

(** [updateGraphic] (lines 86-93). *)
Definition updateGraphic : M Store unit :=
  st <- get_state ;;
  match osmdRef (cells st) with
  | None => raise NotInitialized
  | Some _ =>
      match updateGraphic_member (members st) with
      | Some f => call_member UpdateGraphic f
      | None => ret tt
      end
  end.

(** [setOptions] (lines 104-111). *)
Definition setOptions (options : Options) : M Store unit :=
  st <- get_state ;;
  match osmdRef (cells st) with
  | None => raise NotInitialized
  | Some _ =>
      match setOptions_member (members st) with
      | Some f => call_member (SetOptions options) (f options)
      | None => ret tt
      end
  end.

(** [isReadyToRender] (lines 123-130). *)
Definition isReadyToRender : M Store bool :=
  st <- get_state ;;
  match osmdRef (cells st) with
  | None => ret false
  | Some _ =>
      match IsReadyToRender_member (members st) with
      | Some f =>
          record IsReadyToRender ;;
          st' <- get_state ;;
          match f (calls st') with
          | Returned b => ret b
          | Raised v => raise v
          end
      | None => ret true
      end
  end.

(** ** The cursor facet (lines 133-198) *)

(** [osmdRef.current?.cursor] *)
Definition bound_cursor (st : Store) : option Cursor :=
  match osmdRef (cells st) with
  | Some _ => cursor_member (members st)
  | None => None
  end.

Definition not_a_function : Thrown := ErrorObject "is not a function".

(** [cursor.m()]: calling what is not there is a [TypeError]. *)
Definition invoke (c : Cursor) (m : CursorMethod) : M Store unit :=
  if has c m then
    (record (CursorCall m) ;;
     st <- get_state ;;
     finish (cursor_outcome c m (calls st)))
  else raise not_a_function.

(** One operation of the facet.  [show], [hide], [next], [previous] and
    [reset] call the method whenever there is a cursor; [nextMeasure],
    [previousMeasure], [resetIterator] and [update] first check that it is
    a function. *)
Definition cursor_op (m : CursorMethod) : M Store unit :=
  st <- get_state ;;
  match bound_cursor st with
  | Some c =>
      if probed m then (if has c m then invoke c m else ret tt)
      else invoke c m
  | None => ret tt
  end.

(** [get hidden()]: [osmdRef.current?.cursor?.Hidden ?? true] *)
Definition hidden (st : Store) : bool :=
  match bound_cursor st with
  | Some c => default true (Hidden c)
  | None => true
  end.

(** [get skipInvisibleNotes()]:
    [osmdRef.current?.cursor?.SkipInvisibleNotes ?? false] *)
Definition skipInvisibleNotes (st : Store) : bool :=
  match bound_cursor st with
  | Some c => default false (SkipInvisibleNotes c)
  | None => false
  end.

Definition write_cursor (c : Cursor) : M Store unit :=
  modify (fun st =>
    {| cells := cells st;
       members :=
         {| renderAndScrollBack_member := renderAndScrollBack_member (members st);
            updateGraphic_member := updateGraphic_member (members st);
            setOptions_member := setOptions_member (members st);
            IsReadyToRender_member := IsReadyToRender_member (members st);
            cursor_member := Some c |};
       calls := calls st |}).

(** [cursor.Hidden = value] *)
Definition with_Hidden (value : bool) (c : Cursor) : Cursor :=
  {| Hidden := Some value; SkipInvisibleNotes := SkipInvisibleNotes c;
     has := has c; cursor_outcome := cursor_outcome c |}.

(** [cursor.SkipInvisibleNotes = value] *)
Definition with_SkipInvisibleNotes (value : bool) (c : Cursor) : Cursor :=
  {| Hidden := Hidden c; SkipInvisibleNotes := Some value;
     has := has c; cursor_outcome := cursor_outcome c |}.

(** [set hidden(value)] of [src/hooks/useOSMD.ts] (lines 183-187). *)
Definition set_hidden (value : bool) : M Store unit :=
  st <- get_state ;;
  match bound_cursor st with
  | Some c => write_cursor (with_Hidden value c)
  | None => ret tt
  end.

(** [set skipInvisibleNotes(value)] (lines 191-195). *)
Definition set_skipInvisibleNotes (value : bool) : M Store unit :=
  st <- get_state ;;
  match bound_cursor st with
  | Some c => write_cursor (with_SkipInvisibleNotes value c)
  | None => ret tt
  end.

(** [set hidden(value)] of the second revision ([unnamed/part_003],
    lines 205-221): [hide?.()] or [show?.()], then the field is written
    only if the cursor has one. *)
Definition set_hidden_rev (value : bool) : M Store unit :=
  st <- get_state ;;
  match bound_cursor st with
  | Some c =>
      let m := if value then CursorHide else CursorShow in
      (if has c m then invoke c m else ret tt) ;;
      match Hidden c with
      | Some _ => write_cursor (with_Hidden value c)
      | None => ret tt
      end
  | None => ret tt
  end.

(** The store after the cursor method [m] was called. *)
Definition called (st : Store) (m : CursorMethod) : Store :=
  {| cells := cells st; members := members st;
     calls := calls st ++ [CursorCall m] |}.

End UseOSMD_facets.

(* ===================================================================== *)
(** * The life of the hook: every operation, in any order *)
(* ===================================================================== *)

Module Lifecycle.

Import Js Effect UseOSMD UseOSMD_ops Activation.

(** What can happen to the cells of the hook between mount and unmount. *)
Inductive Step : Type :=
| InitRun (r : Run)
| Load (file : Source) (title : option string)
| Clear
| Cleanup
| Render
| Zoom (scale : Q).

Definition perform (effect : InitEffect) (ctor : Constructor)
  (st : State) (s : Step) : State :=
  match s with
  | InitRun r => snd (effect ctor (container r) (initialOptions r) st)
  | Load file title => snd (load file title st)
  | Clear => snd (clear st)
  | Cleanup => snd (cleanup st)
  | Render => snd (render st)
  | Zoom scale => snd (setZoom scale st)
  end.

Definition run (effect : InitEffect) (ctor : Constructor) (steps : list Step)
  : State := fold_left (perform effect ctor) steps initial.

(** How many instances were handed to [setOsmd]. *)
Definition instances (tr : Trace) : nat :=
  length (List.filter (fun e => match e with SetOsmd => true | _ => false end) tr).

(** What holds of the cells at every moment. *)
Definition well_formed (st : State) : Prop :=
  osmd st = osmdRef st /\
  (osmdRef st = None -> isLoading st = false /\ zoomValue st = 1%Q) /\
  (initRef st = false -> osmdRef st = None) /\
  instances (trace st) = match osmdRef st with Some _ => 1 | None => 0 end.

(** A step that constructs nothing: the latch and the binding stay (the
    instance may have been written to), the trace grows by events that are
    neither constructions nor bindings, and without an instance [isLoading]
    and the zoom cell stay too. *)
Definition quiet (st st' : State) : Prop :=
  initRef st' = initRef st /\
  (exists f, osmd st' = f <$> osmd st /\ osmdRef st' = f <$> osmdRef st) /\
  (exists events,
      trace st' = trace st ++ events /\
      instances events = 0 /\ constructions events = 0) /\
  (osmdRef st = None ->
   isLoading st' = isLoading st /\ zoomValue st' = zoomValue st).

End Lifecycle.

(* ===================================================================== *)
(** * The page-format hook: the first render *)
(* ===================================================================== *)

Module UsePageFormat_init.

Import Js UsePageFormat.

(** [useState(arg)] on the first render: a function is a lazy initializer
    and is called without arguments. *)
Definition useState {A : Type} (arg : Value A) : Result (Value A) :=
  match arg with
  | Member key => Js.call_member key Undef
  | _ => Returned arg
  end.

(** [getInitialFormat] (lines 38-46); the argument is
    [options.initialFormat]. *)
Definition getInitialFormat (initialFormat : option FormatArg) : Stored :=
  match initialFormat with
  | None => PageFormats_Endless
  | Some (ByName name) =>
      if truthy_string name
      then or_else (get PageFormats name) PageFormats_Endless
      else PageFormats_Endless
  | Some (ByValue pf) => Obj pf
  end.

(** [usePageFormat(options)]: the [format] cell on the first render. *)
Definition usePageFormat (initialFormat : option FormatArg) : Result Stored :=
  useState (getInitialFormat initialFormat).

(** [formatId: format.idString]; a value without that property reads
    [undefined]. *)
Definition formatId (format : Stored) : option string :=
  match format with
  | Obj pf => Some (idString pf)
  | _ => None
  end.

End UsePageFormat_init.

(* ===================================================================== *)
(** * The component: what it renders, and successive commits *)
(* ===================================================================== *)

Module SheetMusic_view.

Import Js Effect UseOSMD SheetMusic.

(** The two data attributes of the rendered [div]:
    [data-loading={isLoading}] and [data-error={!!error}]. *)
Definition data_loading (st : State) : bool := isLoading (hook st).

Definition data_error (st : State) : bool :=
  match error (hook st) with
  | Some _ => true
  | None => false
  end.

(** The calls of the [onError] callback among the events of a trace. *)
Definition errors_reported (tr : Trace) : list Thrown :=
  omap (fun e => match e with
                 | OnError err => Some err
                 | _ => None
                 end) tr.

(** The calls of the [onLoad] callback. *)
Definition loads_reported (tr : Trace) : nat :=
  length (List.filter (fun e => match e with OnLoad => true | _ => false end) tr).

End SheetMusic_view.

(* ===================================================================== *)
(** * More sample inputs *)
(* ===================================================================== *)

Module Samples_more.

Import Js Effect.

(** A cursor with every method and both fields. *)
Definition full_cursor : UseOSMD_facets.Cursor :=
  UseOSMD_facets.mkCursorObject (Some false) (Some false) (fun _ => true)
                                (fun _ _ => UseOSMD.Completes).

(** A cursor with the required methods only and no field. *)
Definition bare_cursor : UseOSMD_facets.Cursor :=
  UseOSMD_facets.mkCursorObject None None
    (fun m => negb (UseOSMD_facets.probed m)) (fun _ _ => UseOSMD.Completes).

Definition no_members : UseOSMD_facets.Members :=
  UseOSMD_facets.mkMembers None None None None None.

Definition members_with (c : UseOSMD_facets.Cursor) : UseOSMD_facets.Members :=
  UseOSMD_facets.mkMembers None None None None (Some c).

(** The hook bound to [steady_engine], with the given optional members. *)
Definition bound_with (m : UseOSMD_facets.Members) : UseOSMD_facets.Store :=
  UseOSMD_facets.mkStore (Samples.bound_to Samples.steady_engine) m [].

(** The hook before any instance exists. *)
Definition unbound_with (m : UseOSMD_facets.Members) : UseOSMD_facets.Store :=
  UseOSMD_facets.mkStore UseOSMD.initial m [].

(** A callback that returns, and one that throws. *)
Definition quiet_callback : SheetMusic.Callback := fun _ => UseOSMD.Completes.
Definition throwing_callback (v : Thrown) : SheetMusic.Callback :=
  fun _ => UseOSMD.Throws v.

Definition props_with_callbacks (file : option SheetMusic.FileProp)
  (musicXML : option string) (onLoad onError : option SheetMusic.Callback)
  : SheetMusic.Props :=
  SheetMusic.mkProps file musicXML ∅ onLoad onError None.

End Samples_more.

(* ===================================================================== *)
(** * The coloring hook: what a sequence of setter calls leaves *)
(* ===================================================================== *)

Module UseColoring_runs.

Import UseColoring.

(** The argument of the last action that [pick] selects, or [start] when
    there is none. *)
Definition latest {A : Type} (pick : Action -> option A) (actions : list Action)
  (start : A) : A :=
  fold_left (fun acc a => default acc (pick a)) actions start.

Definition mode_set (a : Action) : option ColoringMode :=
  match a with SetColoringMode m => Some m | _ => None end.

Definition colors_set (a : Action) : option (list string) :=
  match a with SetCustomColors colors => Some colors | _ => None end.

Definition enabled_set (a : Action) : option bool :=
  match a with SetColoringEnabled b => Some b | _ => None end.

Definition darkMode_set (a : Action) : option bool :=
  match a with SetDarkMode b => Some b | _ => None end.

End UseColoring_runs.

(* ===================================================================== *)
(** * Properties of the JavaScript fragments *)
(* ===================================================================== *)

Section JsFacts.

Import Js.

Lemma append_assoc (a b c : string) : (a +:+ b) +:+ c = a +:+ (b +:+ c).
Proof.
  induction a as [| ch a IH].
  - reflexivity.
  - change (String ch ((a +:+ b) +:+ c) = String ch (a +:+ (b +:+ c))).
    now rewrite IH.
Qed.

Lemma as_Error_is_Error fallback v :
  instanceof_Error (as_Error fallback v) = true.
Proof. destruct v; reflexivity. Qed.

Lemma as_Error_of_Error fallback message :
  as_Error fallback (ErrorObject message) = ErrorObject message.
Proof. reflexivity. Qed.

Lemma as_Error_of_other fallback repr :
  as_Error fallback (NonError repr) = ErrorObject fallback.
Proof. reflexivity. Qed.

Lemma is_empty_true s : is_empty s = true <-> s = "".
Proof. destruct s; simpl; split; congruence. Qed.

Lemma truthy_string_false s : truthy_string s = false <-> s = "".
Proof. destruct s; simpl; split; congruence. Qed.

Lemma trimStart_all_white_space s :
  all_white_space s = true -> trimStart s = "".
Proof.
  induction s as [| c s IH]; simpl; intros H.
  - reflexivity.
  - apply andb_prop in H as [Hc Hs]. rewrite Hc. now apply IH.
Qed.

(** A string of white space only trims to the empty string... *)
Lemma trim_all_white_space s : all_white_space s = true -> trim s = "".
Proof.
  intros H. unfold trim. now rewrite (trimStart_all_white_space s H).
Qed.

Lemma trimEnd_empty s : trimEnd s = "" -> all_white_space s = true.
Proof.
  induction s as [| c s IH]; simpl; intros H.
  - reflexivity.
  - destruct (is_white_space c); simpl in *; [| discriminate].
    destruct (trimEnd s); simpl in *; [| discriminate].
    now apply IH.
Qed.

Lemma all_white_space_trimStart s :
  all_white_space (trimStart s) = true -> all_white_space s = true.
Proof.
  induction s as [| c s IH]; simpl; intros H.
  - reflexivity.
  - destruct (is_white_space c) eqn:Hc; simpl in *.
    + now apply IH.
    + rewrite Hc in H. discriminate.
Qed.

(** ... and nothing else does. *)
Lemma trim_empty_iff s : trim s = "" <-> all_white_space s = true.
Proof.
  split.
  - intros H. apply all_white_space_trimStart, trimEnd_empty, H.
  - apply trim_all_white_space.
Qed.

Example trim_inner_space : trim "  a b  " = "a b".
Proof. reflexivity. Qed.

Example trim_line_terminators :
  trim (String (ascii_of_nat 9) (String (ascii_of_nat 10)
          (String (ascii_of_nat 13) (String (ascii_of_nat 160) " ")))) = "".
Proof. reflexivity. Qed.

Lemma get_own {A} (own : gmap string A) key v :
  own !! key = Some v -> get own key = Obj v.
Proof. intros H. unfold get. now rewrite H. Qed.

Lemma get_undefined {A} (own : gmap string A) key :
  own !! key = None -> key ∉ Object_prototype_keys ->
  get own key = Undef.
Proof.
  intros H Hk. unfold get. rewrite H.
  now rewrite bool_decide_eq_false_2.
Qed.

Lemma Object_call_defined {A} (v : Value A) : Object_call v <> Undef.
Proof. destruct v as [| | | | | [] |]; discriminate. Qed.

Lemma call_member_defined {A} key (v : Value A) :
  call_member key v <> Returned Undef.
Proof.
  unfold call_member.
  destruct (String.eqb key "constructor").
  - intros H. injection H. apply Object_call_defined.
  - destruct (String.eqb key "toString"); [discriminate |].
    destruct (String.eqb key "isPrototypeOf"); [| discriminate].
    destruct (is_object v); discriminate.
Qed.

End JsFacts.

(* ===================================================================== *)
(** * Properties of the page-format hook *)
(* ===================================================================== *)

Section PageFormatFacts.

Import Js UsePageFormat.

Lemma PageFormats_Endless_own : PageFormats_Endless = Obj Endless.
Proof. reflexivity. Qed.

(** The test suite's unknown name. *)
Example setFormat_InvalidFormat prev :
  setFormat (ByName "InvalidFormat") prev = Returned (Obj Endless).
Proof. reflexivity. Qed.

Example setFormat_A4_P prev :
  setFormat (ByName "A4_P") prev = Returned (Obj A4_P).
Proof. reflexivity. Qed.

Example setFormat_empty_name prev :
  setFormat (ByName "") prev = Returned (Obj Endless).
Proof. reflexivity. Qed.

(** A registered name resolves to its entry. *)
Lemma setFormat_known name pf prev :
  PageFormats !! name = Some pf ->
  setFormat (ByName name) prev = Returned (Obj pf).
Proof. intros H. unfold setFormat. now rewrite (get_own _ _ _ H). Qed.

(** A name that is neither registered nor a property of
    [Object.prototype] resolves to the endless format. *)
Lemma setFormat_unknown name prev :
  PageFormats !! name = None -> name ∉ Object_prototype_keys ->
  setFormat (ByName name) prev = Returned (Obj Endless).
Proof.
  intros H Hk. unfold setFormat. now rewrite (get_undefined _ _ H Hk).
Qed.

(** No property of [Object.prototype] is a key of the registry. *)
Lemma Object_prototype_keys_unregistered name :
  name ∈ Object_prototype_keys -> PageFormats !! name = None.
Proof.
  intros Hk. unfold Object_prototype_keys in Hk.
  repeat (apply elem_of_cons in Hk as [-> | Hk]; [reflexivity |]).
  now apply elem_of_nil in Hk.
Qed.

(** For such a name the fallback of [||] is never taken: the setter
    receives the inherited property. *)
Lemma setFormat_inherited name prev :
  name ∈ Object_prototype_keys ->
  setFormat (ByName name) prev
  = if String.eqb name "__proto__" then Returned ObjectPrototype
    else call_member name prev.
Proof.
  intros Hk. unfold Object_prototype_keys in Hk.
  repeat (apply elem_of_cons in Hk as [-> | Hk]; [reflexivity |]).
  now apply elem_of_nil in Hk.
Qed.

(** The format an update stores is never [undefined]. *)
Lemma setFormat_defined arg prev : setFormat arg prev <> Returned Undef.
Proof.
  destruct arg as [name | pf]; simpl; [| discriminate].
  unfold or_else.
  destruct (get PageFormats name) as [pf | | key | repr | str | b |] eqn:Hget;
    simpl; try discriminate.
  - apply call_member_defined.
  - destruct (truthy_string str); discriminate.
  - destruct b; discriminate.
Qed.

(** C6, evaluated on names that are not keys of the registry.  The read
    [PageFormats[name]] finds a property of [Object.prototype], which is
    truthy, so the fallback of [||] is not taken.  For ["__proto__"] the
    cell receives [Object.prototype].  For ["constructor"] the setter
    receives the function [Object], which React calls as an updater:
    the format stays what it was, here [A4_P].  For ["toString"] the cell
    receives a string, and for ["valueOf"] the updater throws.  None of
    them stores the endless format. *)
Theorem setFormat_inherited_name_not_Endless :
  PageFormats !! "constructor" = None /\
  PageFormats !! "__proto__" = None /\
  setFormat (ByName "constructor") (Obj A4_P) = Returned (Obj A4_P) /\
  (forall prev,
      setFormat (ByName "__proto__") prev = Returned ObjectPrototype /\
      setFormat (ByName "toString") prev
      = Returned (Str "[object Undefined]") /\
      setFormat (ByName "valueOf") prev = Raised TypeError).
Proof. repeat split. Qed.

(** The template literal of the code and the concatenation of the
    specification build the same string. *)
Lemma custom_id_spec (number_to_string : Q -> string) (w h : Q) :
  custom_id number_to_string w h = spec_custom_id number_to_string w h.
Proof.
  unfold spec_custom_id, custom_id.
  now rewrite !append_assoc.
Qed.

(** C7: without an id, [setCustomFormat(w, h)] stores the id string
    ["Custom_" + w + "x" + h]; with the explicit id [""], it stores [""];
    whatever the id, the stored format has the given dimensions and
    [isInfinite: false]. *)
Theorem setCustomFormat_idString
  (number_to_string : Q -> string) (w h : Q) (prev : Stored) :
  (exists pf,
      setCustomFormat number_to_string w h None prev = Returned (Obj pf) /\
      idString pf = spec_custom_id number_to_string w h) /\
  (exists pf,
      setCustomFormat number_to_string w h (Some "") prev
      = Returned (Obj pf) /\
      idString pf = "") /\
  (forall id, exists pf,
      setCustomFormat number_to_string w h id prev = Returned (Obj pf) /\
      width pf = w /\ height pf = h /\ isInfinite pf = Some false).
Proof.
  repeat split.
  - eexists; split; [reflexivity |].
    apply custom_id_spec.
  - eexists; split; reflexivity.
  - intros id. eexists; repeat split; reflexivity.
Qed.

Example setCustomFormat_explicit_id n2s prev :
  setCustomFormat n2s 100 200 (Some "my-format") prev
  = Returned (Obj (mkPageFormat 100 200 "my-format" (Some false))).
Proof. reflexivity. Qed.

End PageFormatFacts.

(* ===================================================================== *)
(** * Properties of the cursor-list hook *)
(* ===================================================================== *)

Section CursorFacts.

Import UseMultipleCursors Samples.

Lemma misses_head {A : Type} index i (x : A) l :
  misses index i (x :: l) -> same_index i index = false.
Proof.
  unfold misses, same_index. simpl. intros H.
  apply Z.eqb_neq. lia.
Qed.

Lemma misses_tail {A : Type} index i (x : A) l :
  misses index i (x :: l) -> misses index (S i) l.
Proof. unfold misses. simpl. lia. Qed.

Lemma filter_from_misses index i (l : list CursorOptions) :
  misses index i l ->
  filter_from (fun _ j => negb (same_index j index)) i l = l.
Proof.
  revert i. induction l as [| x l IH]; intros i H; simpl.
  - reflexivity.
  - rewrite (misses_head _ _ _ _ H). simpl.
    f_equal. apply IH. exact (misses_tail _ _ _ _ H).
Qed.

Lemma map_from_misses index update i (l : list CursorOptions) :
  misses index i l ->
  map_from (fun cursor j =>
              if same_index j index then spread cursor update else cursor)
           i l = l.
Proof.
  revert i. induction l as [| x l IH]; intros i H; simpl.
  - reflexivity.
  - rewrite (misses_head _ _ _ _ H).
    f_equal. apply IH. exact (misses_tail _ _ _ _ H).
Qed.

Example removeCursor_in_range : removeCursor 0 [red; blue] = [blue].
Proof. reflexivity. Qed.

Example updateCursor_in_range :
  updateCursor 1 opaque_green [red; blue]
  = [red; mkCursor ThinLeft "#00ff00" 1 true].
Proof. reflexivity. Qed.

(** C8: for an integer index outside [[0, length)], negative or at or
    beyond the length, [removeCursor] and [updateCursor] return the list
    they were given: the same elements in the same order.  Both are total
    functions of the list; there is no exceptional result. *)
Theorem cursor_index_out_of_range
  (cursors : list CursorOptions) (index : Z) (update : PartialCursorOptions) :
  (index < 0 \/ Z.of_nat (length cursors) <= index)%Z ->
  removeCursor index cursors = cursors /\
  updateCursor index update cursors = cursors.
Proof.
  intros H.
  assert (Hm : misses index 0 cursors) by (unfold misses; simpl; lia).
  split.
  - apply filter_from_misses, Hm.
  - apply map_from_misses, Hm.
Qed.

Lemma cursor_index_out_of_range_witness :
  (removeCursor (-1) [red; blue] = [red; blue] /\
   updateCursor (-1) opaque_green [red; blue] = [red; blue]) /\
  (removeCursor 2 [red; blue] = [red; blue] /\
   updateCursor 2 opaque_green [red; blue] = [red; blue]).
Proof.
  split.
  - apply (cursor_index_out_of_range [red; blue] (-1) opaque_green).
    left. lia.
  - apply (cursor_index_out_of_range [red; blue] 2 opaque_green).
    right. simpl. lia.
Defined.

End CursorFacts.

(* ===================================================================== *)
(** * Properties of the coloring hook *)
(* ===================================================================== *)

Section ColoringFacts.

Import UseColoring.

Lemma step_darkMode st a :
  is_SetDarkMode_true a = false -> darkMode st = false ->
  darkMode (step st a) = false.
Proof.
  destruct a as [m | colors | b | b]; simpl; intros Ha Hst; try exact Hst.
  destruct b; [discriminate | reflexivity].
Qed.

Lemma fold_step_darkMode actions st :
  forallb (fun a => negb (is_SetDarkMode_true a)) actions = true ->
  darkMode st = false ->
  darkMode (fold_left step actions st) = false.
Proof.
  revert st. induction actions as [| a actions IH]; simpl; intros st Hall Hst.
  - exact Hst.
  - apply andb_prop in Hall as [Ha Hall].
    apply IH; [exact Hall |].
    apply step_darkMode; [| exact Hst].
    now apply negb_true_iff.
Qed.

Example setDarkMode_enables :
  darkMode (run no_options [SetDarkMode true]) = true.
Proof. reflexivity. Qed.

(** C10: whatever the initial options, the initial [darkMode] is [false]
    (the options record has no such member), and it is still [false]
    after any sequence of setter calls that contains no
    [setDarkMode(true)]: only that setter turns dark mode on. *)
Theorem useColoring_darkMode_initially_false
  (initialOptions : UseColoringOptions) (actions : list Action) :
  forallb (fun a => negb (is_SetDarkMode_true a)) actions = true ->
  darkMode (useColoring initialOptions) = false /\
  darkMode (run initialOptions actions) = false.
Proof.
  intros Hall. split; [reflexivity |].
  unfold run. now apply fold_step_darkMode.
Qed.

Lemma useColoring_darkMode_initially_false_witness :
  let opts := mkOptions (Some CustomColorSet) (Some ["#123456"]) (Some true) in
  let actions := [SetColoringMode Boomwhacker; SetColoringEnabled false;
                  SetDarkMode false; SetCustomColors []] in
  darkMode (useColoring opts) = false /\ darkMode (run opts actions) = false.
Proof.
  intros opts actions.
  apply (useColoring_darkMode_initially_false opts actions).
  reflexivity.
Defined.

End ColoringFacts.

(* ===================================================================== *)
(** * Properties of the engine-binding hook *)
(* ===================================================================== *)

Section HookFacts.

Import Js Effect UseOSMD.

(** Unfolds the combinators of the effect monad and the primitives of the
    hook, leaving the tests on the store and on the engine's answers. *)
Ltac run_hook :=
  unfold try_catch_finally, try_finally, try_catch, detached, zoom_on,
    engine_load, engine_render, engine_clear, call_engine, construct,
    setIsLoading, setError, setOsmd, setZoomValue, write_initRef,
    write_osmdRef, emit, modify, bind, get_state, settle, ret, raise,
    result_of, state_after in *;
  simpl in *.


(** Brings a trace to the form [trace st ++ [e1; ...; en]]. *)
Ltac flatten_trace := rewrite <- ?app_assoc; simpl.

Lemma settled_id st :
  settled st (isLoading st) (error st) [] = st.
Proof. destruct st. unfold settled. simpl. now rewrite app_nil_r. Qed.

(** *** [load] *)

Lemma load_unbound file title st :
  osmdRef st = None -> load file title st = (Raised NotInitialized, st).
Proof. intros H. unfold load. run_hook. now rewrite H. Qed.

Lemma load_rejected file title st engine v :
  osmdRef st = Some engine ->
  load_outcome engine (trace st ++ issued file title) file title = Throws v ->
  let failure := as_Error "Failed to load music" v in
  load file title st
  = (Raised failure,
     settled st false (Some failure)
             (issued file title
              ++ [SetError (Some failure); SetIsLoading false])).
Proof.
  intros Hb Hl failure. unfold load, settled, issued in *. run_hook.
  do 3 (rewrite ?Hb, ?Hl; simpl; flatten_trace).
  rewrite <- Hb. reflexivity.
Qed.

Lemma load_render_throws file title st engine v :
  osmdRef st = Some engine ->
  load_outcome engine (trace st ++ issued file title) file title = Completes ->
  render_outcome engine (trace st ++ issued file title ++ [EngineRender])
  = Throws v ->
  let failure := as_Error "Failed to load music" v in
  load file title st
  = (Raised failure,
     settled st false (Some failure)
             (issued file title
              ++ [EngineRender; SetError (Some failure);
                  SetIsLoading false])).
Proof.
  intros Hb Hl Hr failure. unfold load, settled, issued in *. run_hook.
  do 4 (rewrite ?Hb, ?Hl, ?Hr; simpl; flatten_trace).
  rewrite <- Hb. reflexivity.
Qed.

Lemma load_succeeds file title st engine :
  osmdRef st = Some engine ->
  load_outcome engine (trace st ++ issued file title) file title = Completes ->
  render_outcome engine (trace st ++ issued file title ++ [EngineRender])
  = Completes ->
  load file title st
  = (Returned tt,
     settled st false None
             (issued file title ++ [EngineRender; SetIsLoading false])).
Proof.
  intros Hb Hl Hr. unfold load, settled, issued in *. run_hook.
  do 4 (rewrite ?Hb, ?Hl, ?Hr; simpl; flatten_trace).
  rewrite <- Hb. reflexivity.
Qed.


Example load_string_rejection :
  load (Path "score.musicxml") None
       (Samples.bound_to (Samples.rejecting_engine (NonError "String error")))
  = (Raised (ErrorObject "Failed to load music"),
     settled (Samples.bound_to (Samples.rejecting_engine (NonError "String error")))
             false (Some (ErrorObject "Failed to load music"))
             [SetIsLoading true; SetError None;
              EngineLoad (Path "score.musicxml") None;
              SetError (Some (ErrorObject "Failed to load music"));
              SetIsLoading false]).
Proof. reflexivity. Qed.

(** A render that throws after a successful load is a failure of the
    call: the error it throws is stored and raised as it is. *)
Example load_render_failure :
  load (Path "score.musicxml") None
       (Samples.bound_to (Samples.unrenderable_engine (ErrorObject "Render failed")))
  = (Raised (ErrorObject "Render failed"),
     settled (Samples.bound_to
                (Samples.unrenderable_engine (ErrorObject "Render failed")))
             false (Some (ErrorObject "Render failed"))
             [SetIsLoading true; SetError None;
              EngineLoad (Path "score.musicxml") None; EngineRender;
              SetError (Some (ErrorObject "Render failed"));
              SetIsLoading false]).
Proof. reflexivity. Qed.



(** *** [clear] *)

Lemma clear_unbound st : osmdRef st = None -> clear st = (Returned tt, st).
Proof. intros H. unfold clear. run_hook. now rewrite H. Qed.

Lemma clear_completes st engine :
  osmdRef st = Some engine ->
  clear_outcome engine (trace st ++ [EngineClear]) = Completes ->
  clear st
  = (Returned tt, settled st (isLoading st) None [EngineClear; SetError None]).
Proof.
  intros Hb Hc. unfold clear, settled. run_hook.
  do 2 (rewrite ?Hb, ?Hc; simpl; flatten_trace).
  rewrite <- Hb. reflexivity.
Qed.

(** When the engine's [clear] throws, the exception reaches the caller
    and [error] is not reset. *)
Lemma clear_throws st engine v :
  osmdRef st = Some engine ->
  clear_outcome engine (trace st ++ [EngineClear]) = Throws v ->
  clear st = (Raised v, settled st (isLoading st) (error st) [EngineClear]).
Proof.
  intros Hb Hc. unfold clear, settled. run_hook.
  do 2 (rewrite ?Hb, ?Hc; simpl; flatten_trace).
  rewrite <- Hb. reflexivity.
Qed.

Lemma engine_calls_app tr1 tr2 :
  engine_calls (tr1 ++ tr2) = engine_calls tr1 ++ engine_calls tr2.
Proof. apply List.filter_app. Qed.

(** C5 as stated fails.  After a failed load has stored an error, on an
    engine whose [clear] throws, [clear()] does not reset [error]: the
    exception reaches the caller and the stored error is still there. *)
Lemma clear_keeps_error_when_engine_throws :
  let engine := Samples.broken_engine (ErrorObject "Load failed")
                                      (ErrorObject "Clear failed") in
  let st := state_after (load (Path "score.musicxml") None)
                        (Samples.bound_to engine) in
  osmdRef st = Some engine /\
  error st = Some (ErrorObject "Load failed") /\
  result_of clear st = Raised (ErrorObject "Clear failed") /\
  error (state_after clear st) = Some (ErrorObject "Load failed") /\
  error (state_after clear (state_after clear st))
  = Some (ErrorObject "Load failed").
Proof. repeat split. Qed.

(** C5, amended: [clear()].  Without an engine instance it is a no-op.
    With one, it invokes the engine's [clear], once, and leaves [isLoading]
    as it was.  If that call returns, [error] is reset to [null] and no
    other cell changes; if it throws, the exception reaches the caller and
    [error] stays as it was.  A second call after one that returned
    interacts with the engine by one more [clear] and nothing else, and
    leaves [error] equal to [null], whether the engine's second [clear]
    returns or throws. *)
Theorem clear_contract (st : State) :
  (osmdRef st = None -> clear st = (Returned tt, st)) /\
  (forall engine, osmdRef st = Some engine ->
     let st' := state_after clear st in
     engine_calls (trace st') = engine_calls (trace st) ++ [EngineClear] /\
     isLoading st' = isLoading st /\
     match clear_outcome engine (trace st ++ [EngineClear]) with
     | Throws v =>
         clear st
         = (Raised v, settled st (isLoading st) (error st) [EngineClear])
     | Completes =>
         let st1 := settled st (isLoading st) None [EngineClear; SetError None] in
         let st2 := state_after clear st1 in
         clear st = (Returned tt, st1) /\
         engine_calls (trace st2) = engine_calls (trace st1) ++ [EngineClear] /\
         isLoading st2 = isLoading st /\ error st2 = None /\
         match clear_outcome engine (trace st1 ++ [EngineClear]) with
         | Throws v =>
             clear st1
             = (Raised v, settled st1 (isLoading st) None [EngineClear])
         | Completes =>
             clear st1
             = (Returned tt,
                settled st1 (isLoading st) None [EngineClear; SetError None])
         end
     end) /\
  UseOSMD_rev.clear st = clear st.
Proof.
  split; [apply clear_unbound |].
  split; [| reflexivity].
  intros engine Hb st'. unfold st', state_after.
  destruct (clear_outcome engine (trace st ++ [EngineClear])) as [| v] eqn:Hc.
  - rewrite (clear_completes _ _ Hb Hc). simpl.
    split; [now rewrite engine_calls_app |]. split; [reflexivity |].
    split; [reflexivity |].
    set (st1 := settled st (isLoading st) None [EngineClear; SetError None]).
    assert (Hb1 : osmdRef st1 = Some engine) by exact Hb.
    destruct (clear_outcome engine (trace st1 ++ [EngineClear]))
      as [| w] eqn:Hc2.
    + rewrite (clear_completes _ _ Hb1 Hc2). simpl.
      split; [now rewrite engine_calls_app |]. split; [reflexivity |].
      split; [reflexivity |].
      unfold st1 in Hc2. simpl in Hc2. rewrite Hc2. reflexivity.
    + rewrite (clear_throws _ _ _ Hb1 Hc2). simpl.
      split; [now rewrite engine_calls_app |]. split; [reflexivity |].
      split; [reflexivity |].
      unfold st1 in Hc2. simpl in Hc2. rewrite Hc2. reflexivity.
  - rewrite (clear_throws _ _ _ Hb Hc). simpl.
    split; [now rewrite engine_calls_app |]. split; reflexivity.
Qed.

Lemma clear_contract_witness :
  let steady := Samples.bound_to Samples.steady_engine in
  let broken :=
    settled (Samples.bound_to
               (Samples.broken_engine (ErrorObject "Load failed")
                                      (ErrorObject "Clear failed")))
            false (Some (ErrorObject "Load failed")) [] in
  clear initial = (Returned tt, initial) /\
  clear steady
  = (Returned tt, settled steady false None [EngineClear; SetError None]) /\
  clear (settled steady false None [EngineClear; SetError None])
  = (Returned tt,
     settled steady false None
             [EngineClear; SetError None; EngineClear; SetError None]) /\
  clear broken
  = (Raised (ErrorObject "Clear failed"),
     settled broken false (Some (ErrorObject "Load failed")) [EngineClear]).
Proof.
  intros steady broken.
  split; [exact (proj1 (clear_contract initial) eq_refl) |].
  destruct (clear_contract steady) as [_ [Hsteady _]].
  destruct (Hsteady Samples.steady_engine eq_refl)
    as [_ [_ [Hfirst [_ [_ [_ Hsecond]]]]]].
  split; [exact Hfirst |].
  split; [exact Hsecond |].
  destruct (clear_contract broken) as [_ [Hbroken _]].
  exact (proj2 (proj2 (Hbroken _ eq_refl))).
Defined.

(** *** The initialization effect *)

Import Activation.

Lemma constructions_app tr1 tr2 :
  constructions (tr1 ++ tr2) = constructions tr1 + constructions tr2.
Proof. unfold constructions. now rewrite List.filter_app, length_app. Qed.

(** The guard is the same in both revisions: no container, or the latch
    set, and the run does nothing. *)
Lemma init_effect_guard ctor container opts st :
  container = None \/ initRef st = true ->
  init_effect ctor container opts st = (skipped, st) /\
  UseOSMD_rev.init_effect ctor container opts st = (skipped, st).
Proof.
  intros H. unfold init_effect, UseOSMD_rev.init_effect, skipped. run_hook.
  destruct container as [c |]; [| split; reflexivity].
  destruct H as [H | H]; [discriminate |].
  rewrite H. split; reflexivity.
Qed.

(** A successful construction binds the instance and sets the latch, in
    both revisions. *)
Lemma init_effect_constructs ctor c opts st instance :
  initRef st = false ->
  ctor (trace st ++ [Construct c opts]) c opts = inl instance ->
  init_effect ctor (Some c) opts st
  = (registered, constructed st instance c opts) /\
  UseOSMD_rev.init_effect ctor (Some c) opts st
  = (registered, constructed st instance c opts).
Proof.
  intros Hi Hc.
  unfold init_effect, UseOSMD_rev.init_effect, registered, constructed.
  run_hook. rewrite Hi, Hc. simpl. flatten_trace. split; reflexivity.
Qed.

(** A construction that throws: the value is captured in [error] and the
    run returns.  The first revision leaves the latch open ... *)
Lemma init_effect_fails ctor c opts st v :
  initRef st = false ->
  ctor (trace st ++ [Construct c opts]) c opts = inr v ->
  init_effect ctor (Some c) opts st
  = (registered, construction_failed st false v c opts).
Proof.
  intros Hi Hc. unfold init_effect, registered, construction_failed.
  run_hook. rewrite Hi, Hc. simpl. flatten_trace.
  rewrite <- Hi. reflexivity.
Qed.

(** ... and the second one sets it. *)
Lemma rev_init_effect_fails ctor c opts st v :
  initRef st = false ->
  ctor (trace st ++ [Construct c opts]) c opts = inr v ->
  UseOSMD_rev.init_effect ctor (Some c) opts st
  = (registered, construction_failed st true v c opts).
Proof.
  intros Hi Hc.
  unfold UseOSMD_rev.init_effect, registered, construction_failed.
  run_hook. rewrite Hi, Hc. simpl. flatten_trace. reflexivity.
Qed.

(** Once the latch is set, no run of the effect changes anything. *)
Lemma run_all_latched effect ctor runs st :
  (forall container opts st',
      initRef st' = true -> effect ctor container opts st' = (skipped, st')) ->
  initRef st = true ->
  run_all effect ctor runs st = (map (fun _ => skipped) runs, st).
Proof.
  intros Hguard Hi. induction runs as [| r runs IH]; simpl.
  - reflexivity.
  - rewrite (Hguard _ _ _ Hi), IH. reflexivity.
Qed.

Lemma rev_run_all_latched ctor runs st :
  initRef st = true ->
  run_all UseOSMD_rev.init_effect ctor runs st
  = (map (fun _ => skipped) runs, st).
Proof.
  apply run_all_latched. intros container opts st' Hi.
  apply init_effect_guard. now right.
Qed.

(** Second revision: the runs of an activation whose first run sees the
    container.  The constructor is called exactly once, whether it
    succeeds or throws; a thrown value is captured in [error] (wrapped if
    it is not an [Error]); no run raises; the later runs change nothing. *)
Lemma rev_init_effect_constructs_once ctor c opts rest :
  let runs := mkRun (Some c) opts :: rest in
  let results := fst (run_all UseOSMD_rev.init_effect ctor runs initial) in
  let st := snd (run_all UseOSMD_rev.init_effect ctor runs initial) in
  constructions (trace st) = 1 /\
  Forall (fun r => is_Raised r = false) results /\
  match ctor [Construct c opts] c opts with
  | inl instance => st = constructed initial instance c opts
  | inr v => st = construction_failed initial true v c opts
  end.
Proof.
  intros runs results st. unfold results, st, runs. clear runs results st.
  assert (Hskipped : Forall (fun r : Result (option (M State unit)) =>
                               is_Raised r = false)
                            (map (fun _ => skipped) rest)).
  { induction rest as [| r rest IH]; simpl; constructor;
      [reflexivity | exact IH]. }
  simpl run_all.
  destruct (ctor [Construct c opts] c opts) as [instance | v] eqn:Hc.
  - destruct (init_effect_constructs ctor c opts initial instance eq_refl Hc)
      as [_ ->].
    rewrite rev_run_all_latched by reflexivity. simpl.
    split; [reflexivity |].
    split; [constructor; [reflexivity | exact Hskipped] | reflexivity].
  - rewrite (rev_init_effect_fails ctor c opts initial v eq_refl Hc).
    rewrite rev_run_all_latched by reflexivity. simpl.
    split; [reflexivity |].
    split; [constructor; [reflexivity | exact Hskipped] | reflexivity].
Qed.

(** First revision: after a construction that succeeds, the latch holds
    and no later run constructs again. *)
Lemma init_effect_latches_on_success ctor c opts rest instance :
  ctor [Construct c opts] c opts = inl instance ->
  run_all init_effect ctor (mkRun (Some c) opts :: rest) initial
  = (registered :: map (fun _ => skipped) rest,
     constructed initial instance c opts).
Proof.
  intros Hc. simpl run_all.
  destruct (init_effect_constructs ctor c opts initial instance eq_refl Hc)
    as [-> _].
  rewrite (run_all_latched init_effect ctor rest
             (constructed initial instance c opts)).
  - reflexivity.
  - intros container opts' st' Hi. apply init_effect_guard. now right.
  - reflexivity.
Qed.

(** Runs that find no container leave the activation where it was. *)
Lemma run_all_unmounted ctor pending runs st :
  Forall (fun r => has_container r = false) pending ->
  snd (run_all UseOSMD_rev.init_effect ctor (pending ++ runs) st)
  = snd (run_all UseOSMD_rev.init_effect ctor runs st) /\
  snd (run_all init_effect ctor (pending ++ runs) st)
  = snd (run_all init_effect ctor runs st).
Proof.
  induction 1 as [| r pending Hr _ IH]; simpl; [split; reflexivity |].
  destruct r as [container opts]. unfold has_container in Hr. simpl in *.
  destruct container; [discriminate |].
  destruct (init_effect_guard ctor None opts st (or_introl eq_refl))
    as [-> ->].
  destruct IH as [IH1 IH2].
  destruct (run_all UseOSMD_rev.init_effect ctor (pending ++ runs) st).
  destruct (run_all init_effect ctor (pending ++ runs) st).
  simpl in *. split; assumption.
Qed.

(** First revision: with a constructor that throws on every call, every
    run that sees the container calls it again. *)
Lemma init_effect_retries ctor c opts n st :
  (forall tr, exists v, ctor tr c opts = inr v) ->
  initRef st = false ->
  constructions
    (trace (snd (run_all init_effect ctor (repeat (mkRun (Some c) opts) n) st)))
  = constructions (trace st) + n.
Proof.
  intros Hthrows. revert st. induction n as [| n IH]; intros st Hi; simpl.
  - lia.
  - destruct (Hthrows (trace st ++ [Construct c opts])) as [v Hv].
    rewrite (init_effect_fails ctor c opts st v Hi Hv).
    specialize (IH (construction_failed st false v c opts) eq_refl).
    destruct (run_all init_effect ctor (repeat (mkRun (Some c) opts) n)
                      (construction_failed st false v c opts)).
    simpl in *. rewrite IH.
    rewrite constructions_app. unfold constructions. simpl. lia.
Qed.

(** *** What holds throughout an activation *)

Lemma cleanup_settled st :
  exists events,
    cleanup st = (Returned tt, settled st (isLoading st) (error st) events).
Proof.
  unfold cleanup. run_hook.
  destruct (osmdRef st) as [engine |] eqn:Hb; simpl.
  - exists [EngineClear]. unfold settled. rewrite Hb.
    destruct (clear_outcome engine (trace st ++ [EngineClear]));
      simpl; rewrite <- Hb; reflexivity.
  - exists []. now rewrite settled_id.
Qed.

Lemma consistent_settled st loading err events :
  consistent st -> (osmdRef st = None -> loading = false) ->
  consistent (settled st loading err events).
Proof. intros [Hc Hl] H. split; simpl; assumption. Qed.

Lemma load_consistent file title st :
  consistent st -> consistent (snd (load file title st)).
Proof.
  intros Hc.
  destruct (osmdRef st) as [engine |] eqn:Hb.
  - destruct (load_outcome engine (trace st ++ issued file title) file title)
      as [| v] eqn:Hl.
    + destruct (render_outcome engine
                  (trace st ++ issued file title ++ [EngineRender]))
        as [| v] eqn:Hr.
      * rewrite (load_succeeds _ _ _ _ Hb Hl Hr).
        now apply consistent_settled.
      * rewrite (load_render_throws _ _ _ _ _ Hb Hl Hr).
        now apply consistent_settled.
    + rewrite (load_rejected _ _ _ _ _ Hb Hl). now apply consistent_settled.
  - now rewrite (load_unbound _ _ _ Hb).
Qed.

Lemma clear_consistent st : consistent st -> consistent (snd (clear st)).
Proof.
  intros Hc.
  destruct (osmdRef st) as [engine |] eqn:Hb.
  - destruct (clear_outcome engine (trace st ++ [EngineClear])) as [| v] eqn:Ho.
    + rewrite (clear_completes _ _ Hb Ho). apply consistent_settled; [exact Hc |].
      congruence.
    + rewrite (clear_throws _ _ _ Hb Ho). apply consistent_settled; [exact Hc |].
      congruence.
  - now rewrite (clear_unbound _ Hb).
Qed.

Lemma cleanup_consistent st : consistent st -> consistent (snd (cleanup st)).
Proof.
  intros Hc. destruct (cleanup_settled st) as [events ->].
  apply consistent_settled; [exact Hc | apply Hc].
Qed.

Lemma init_effect_consistent ctor container opts st :
  consistent st ->
  consistent (snd (init_effect ctor container opts st)) /\
  consistent (snd (UseOSMD_rev.init_effect ctor container opts st)).
Proof.
  intros Hc.
  destruct container as [c |];
    [| destruct (init_effect_guard ctor None opts st (or_introl eq_refl))
         as [-> ->]; split; exact Hc].
  destruct (initRef st) eqn:Hi;
    [destruct (init_effect_guard ctor (Some c) opts st (or_intror Hi))
       as [-> ->]; split; exact Hc |].
  destruct (ctor (trace st ++ [Construct c opts]) c opts)
    as [instance | v] eqn:Hctor.
  - destruct (init_effect_constructs ctor c opts st instance Hi Hctor)
      as [-> ->].
    split; (split; simpl; [split |]; discriminate).
  - rewrite (init_effect_fails ctor c opts st v Hi Hctor).
    rewrite (rev_init_effect_fails ctor c opts st v Hi Hctor).
    destruct Hc as [Hc Hl]. split; (split; simpl; assumption).
Qed.

(** Throughout an activation, in either revision, the two cells that hold
    the instance agree, and [isLoading] is [false] as long as there is
    no instance: a call of [load] that raises [NotInitialized] also leaves
    [isLoading] at [false]. *)
Lemma reachable_consistent effect ctor st :
  effect = init_effect \/ effect = UseOSMD_rev.init_effect ->
  reachable effect ctor st -> consistent st.
Proof.
  intros Heffect [calls ->].
  assert (Hinit : consistent initial).
  { split; [split |]; reflexivity. }
  revert Hinit. generalize initial as st.
  induction calls as [| c calls IH]; intros st Hc; simpl; [exact Hc |].
  apply IH. destruct c as [r | file title | |]; simpl.
  - destruct (init_effect_consistent ctor (container r) (initialOptions r)
                                     st Hc) as [H1 H2].
    destruct Heffect as [-> | ->]; assumption.
  - now apply load_consistent.
  - now apply clear_consistent.
  - now apply cleanup_consistent.
Qed.

(** With a constructor that works, two runs construct once, in both
    revisions. *)
Example init_effect_binds_once :
  let runs := [Samples.mounted; Samples.mounted] in
  constructions
    (trace (snd (run_all init_effect Samples.working_constructor runs initial)))
  = 1 /\
  constructions
    (trace (snd (run_all UseOSMD_rev.init_effect Samples.working_constructor
                         runs initial)))
  = 1.
Proof. split; reflexivity. Qed.

(** C3, evaluated on an activation whose constructor throws and whose
    init effect runs twice with the container mounted.  The effect of
    [src/hooks/useOSMD.ts] calls the constructor twice: its [catch] block
    stores the error and leaves [initRef] unset.  The effect of the
    second revision, which sets the latch in the [catch] block, calls it
    once.  Neither propagates the exception, and both store it. *)
Theorem init_effect_retries_after_failure :
  let runs := [Samples.mounted; Samples.mounted] in
  let first := run_all init_effect Samples.failing_constructor runs initial in
  let second :=
    run_all UseOSMD_rev.init_effect Samples.failing_constructor runs initial in
  constructions (trace (snd first)) = 2 /\
  constructions (trace (snd second)) = 1 /\
  fst first = [registered; registered] /\
  fst second = [registered; skipped] /\
  error (snd first) = Some (ErrorObject "Init failed") /\
  error (snd second) = Some (ErrorObject "Init failed").
Proof. repeat split. Qed.

End HookFacts.

(* ===================================================================== *)
(** * Properties of the component *)
(* ===================================================================== *)

Section ComponentFacts.

Import Js Effect UseOSMD SheetMusic.

Ltac run_effect :=
  unfold try_catch_finally, try_finally, try_catch, detached, zoom_on,
    emit, modify, bind, get_state, settle, ret, raise,
    result_of, state_after in *;
  simpl in *.

(** *** How the hook's store grows *)

Lemma grows_refl h : grows h h [].
Proof. exists []. now rewrite app_nil_r. Qed.

Lemma grows_trans h1 h2 h3 l1 l2 :
  grows h1 h2 l1 -> grows h2 h3 l2 -> grows h1 h3 (l1 ++ l2).
Proof.
  intros (ev1 & Ht1 & Hl1 & Hb1) (ev2 & Ht2 & Hl2 & Hb2).
  exists (ev1 ++ ev2). repeat split.
  - now rewrite Ht2, Ht1, app_assoc.
  - unfold loads_of in *. now rewrite omap_app, Hl1, Hl2.
  - now rewrite Hb2, Hb1.
Qed.

Lemma grows_settled h loading err events :
  grows h (settled h loading err events) (loads_of events).
Proof. exists events. repeat split. Qed.

(** [load] hands its source to the engine when an instance is bound, and
    calls the engine's [load] at no other time. *)
Lemma load_grows source title h :
  grows h (snd (UseOSMD.load source title h)) (handed_over h source).
Proof.
  unfold handed_over.
  destruct (osmdRef h) as [engine |] eqn:Hb.
  - destruct (load_outcome engine (trace h ++ issued source title)
                           source title) as [| v] eqn:Hl.
    + destruct (render_outcome engine
                  (trace h ++ issued source title ++ [EngineRender]))
        as [| v] eqn:Hr.
      * rewrite (load_succeeds _ _ _ _ Hb Hl Hr). apply grows_settled.
      * rewrite (load_render_throws _ _ _ _ _ Hb Hl Hr). apply grows_settled.
    + rewrite (load_rejected _ _ _ _ _ Hb Hl). apply grows_settled.
  - rewrite (load_unbound _ _ _ Hb). apply grows_refl.
Qed.

(** A callback adds at most its own event. *)
Lemma call_back_grows e cb st :
  loads_of [e] = [] ->
  let st' := snd (call_back e cb st) in
  grows (hook st) (hook st') [] /\
  prevFileRef st' = prevFileRef st /\
  prevMusicXMLRef st' = prevMusicXMLRef st.
Proof.
  intros He. unfold call_back, in_hook.
  destruct cb as [f |]; run_effect.
  - destruct (f (trace (hook st) ++ [e])); simpl;
      (split; [| split; reflexivity]);
      exists [e]; repeat split; assumption.
  - split; [apply grows_refl | split; reflexivity].
Qed.

(** *** [resolve_source] and [loadMusic] *)

(** A truthy [musicXML] that trims to nothing: the block returns. *)
Lemma resolve_source_blank p st xml :
  musicXML p = Some xml -> xml <> "" -> trim xml = "" ->
  resolve_source p st = (Returned None, st).
Proof.
  intros Hxml Hne Htrim. unfold resolve_source. rewrite Hxml.
  destruct xml as [| ch xml]; [congruence |]. simpl.
  now rewrite Htrim.
Qed.

(** A [musicXML] with something in it: it is parsed, whatever [file] is. *)
Lemma resolve_source_musicXML p st xml :
  musicXML p = Some xml -> trim xml <> "" ->
  resolve_source p st
  = (Returned (Some (Doc (parseFromString xml "text/xml"))),
     {| hook := hook st; prevFileRef := prevFileRef st;
        prevMusicXMLRef := Some xml |}).
Proof.
  intros Hxml Htrim. unfold resolve_source. rewrite Hxml.
  destruct xml as [| ch xml]; [now contradict Htrim |]. simpl.
  destruct (is_empty (trim (String ch xml))) eqn:He.
  - apply is_empty_true in He. contradiction.
  - reflexivity.
Qed.

(** Neither prop is truthy: the block returns. *)
Lemma resolve_source_nothing p st :
  truthy_file (file p) = false -> truthy_musicXML (musicXML p) = false ->
  resolve_source p st = (Returned None, st).
Proof.
  intros Hf Hx. unfold resolve_source. now rewrite Hx, Hf.
Qed.

(** A truthy [file] and no truthy [musicXML]: the file is passed on. *)
Lemma resolve_source_file p st f :
  file p = Some f -> truthy_file (file p) = true ->
  truthy_musicXML (musicXML p) = false ->
  resolve_source p st
  = (Returned (Some (source_of_file f)),
     {| hook := hook st; prevFileRef := Some f;
        prevMusicXMLRef := prevMusicXMLRef st |}).
Proof.
  intros Hf Ht Hx. unfold resolve_source. rewrite Hx, Ht, Hf.
  rewrite Hf in Ht.
  destruct f as [path | ref | ref]; simpl in *; try reflexivity.
  destruct path; [discriminate | reflexivity].
Qed.

(** [loadMusic] once the source is resolved: one call to the hook's
    [load], then one of the callbacks. *)
Lemma loadMusic_resolved p st st1 source :
  resolve_source p st = (Returned (Some source), st1) ->
  let st' := snd (loadMusic p st) in
  grows (hook st1) (hook st') (handed_over (hook st1) source) /\
  prevFileRef st' = prevFileRef st1 /\
  prevMusicXMLRef st' = prevMusicXMLRef st1.
Proof.
  intros Hres. unfold loadMusic, try_catch, bind.
  rewrite Hres. unfold in_hook, zoom_on.
  pose proof (load_grows source None (hook st1)) as Hload.
  destruct (UseOSMD.load source None (hook st1)) as [[[] | v] h1];
    simpl in Hload.
  - pose proof (call_back_grows OnLoad (onLoad p)
                  {| hook := h1; prevFileRef := prevFileRef st1;
                     prevMusicXMLRef := prevMusicXMLRef st1 |} eq_refl)
      as (Hcb & Hf & Hx).
    destruct (call_back OnLoad (onLoad p) _) as [[[] | w] st2]; simpl in *.
    + split; [| split; assumption].
      rewrite <- (app_nil_r (handed_over _ _)).
      eapply grows_trans; eassumption.
    + pose proof (call_back_grows
                    (OnError (as_Error "Failed to load music" w))
                    (onError p) st2 eq_refl) as (Hcb2 & Hf2 & Hx2).
      split; [| split; congruence].
      rewrite <- (app_nil_r (handed_over _ _)).
      eapply grows_trans; [eassumption |].
      change (@nil Source) with (@nil Source ++ []).
      eapply grows_trans; eassumption.
  - pose proof (call_back_grows
                  (OnError (as_Error "Failed to load music" v))
                  (onError p)
                  {| hook := h1; prevFileRef := prevFileRef st1;
                     prevMusicXMLRef := prevMusicXMLRef st1 |} eq_refl)
      as (Hcb & Hf & Hx).
    simpl in *. split; [| split; assumption].
    rewrite <- (app_nil_r (handed_over _ _)).
    eapply grows_trans; eassumption.
Qed.

(** [loadMusic] when the block returns early: nothing happens. *)
Lemma loadMusic_returns p st :
  resolve_source p st = (Returned None, st) ->
  loadMusic p st = (Returned tt, st).
Proof.
  intros Hres. unfold loadMusic, try_catch, bind. now rewrite Hres.
Qed.

(** The load effect is the guarded call of [loadMusic]; it always
    returns. *)
Lemma load_effect_cases p st :
  load_effect p st = (Returned tt, st) \/
  (osmd (hook st) <> None /\
   (file p <> prevFileRef st \/ musicXML p <> prevMusicXMLRef st) /\
   (truthy_file (file p) = true \/ truthy_musicXML (musicXML p) = true) /\
   load_effect p st = (Returned tt, snd (loadMusic p st))).
Proof.
  unfold load_effect, bind, get_state.
  destruct (osmd (hook st)) as [engine |]; [| now left].
  destruct (bool_decide (file p = prevFileRef st)) eqn:Hf;
    destruct (bool_decide (musicXML p = prevMusicXMLRef st)) eqn:Hx;
    simpl; try (now left);
    (destruct (truthy_file (file p)) eqn:Htf;
     destruct (truthy_musicXML (musicXML p)) eqn:Htx;
     simpl; try (now left); right);
    (split; [discriminate |]);
    (split; [| split; [auto | reflexivity]]).
  all: try (apply bool_decide_eq_false in Hf; now left).
  all: apply bool_decide_eq_false in Hx; now right.
Qed.

Lemma load_effect_triggers p st :
  osmd (hook st) <> None ->
  file p <> prevFileRef st \/ musicXML p <> prevMusicXMLRef st ->
  truthy_file (file p) = true \/ truthy_musicXML (musicXML p) = true ->
  load_effect p st = (Returned tt, snd (loadMusic p st)).
Proof.
  intros Ho Hchanged Htruthy. unfold load_effect, bind, get_state.
  destruct (osmd (hook st)); [| congruence].
  assert (Hc : (negb (negb (bool_decide (file p = prevFileRef st)))
                && negb (negb (bool_decide (musicXML p = prevMusicXMLRef st))))%bool
               = false).
  { rewrite !negb_involutive. apply andb_false_iff.
    destruct Hchanged as [H | H]; [left | right];
      now apply bool_decide_eq_false. }
  rewrite Hc.
  assert (Ht : (negb (truthy_file (file p))
                && negb (truthy_musicXML (musicXML p)))%bool = false).
  { apply andb_false_iff.
    destruct Htruthy as [H | H]; [left | right]; now rewrite H. }
  rewrite Ht. reflexivity.
Qed.

(** *** What the load effect does with the props *)

(** C9: a [musicXML] that is not empty and consists of white space only
    (so that it trims to the empty string) triggers no load, whatever the
    other props and the store: the effect returns, the trace is as it
    was, so the engine's [load] was not invoked, and neither
    [prevMusicXMLRef] nor any other cell was written. *)
Theorem whitespace_musicXML_not_loaded
  (p : Props) (st : State) (xml : string) :
  musicXML p = Some xml -> xml <> "" -> all_white_space xml = true ->
  trim xml = "" /\
  load_effect p st = (Returned tt, st) /\
  loads_of (trace (hook (state_after (load_effect p) st)))
  = loads_of (trace (hook st)) /\
  prevMusicXMLRef (state_after (load_effect p) st) = prevMusicXMLRef st.
Proof.
  intros Hxml Hne Hws.
  pose proof (trim_all_white_space xml Hws) as Htrim.
  assert (Heff : load_effect p st = (Returned tt, st)).
  { destruct (load_effect_cases p st) as [H | (_ & _ & _ & H)]; [exact H |].
    rewrite H.
    now rewrite (loadMusic_returns p st
                   (resolve_source_blank p st xml Hxml Hne Htrim)). }
  unfold state_after. rewrite Heff. repeat split; assumption.
Qed.

Lemma whitespace_musicXML_not_loaded_witness :
  let p := Samples.props_of (Some (FilePath "a.xml")) (Some "   ") in
  let st := Samples.ready Samples.steady_engine in
  trim "   " = "" /\
  load_effect p st = (Returned tt, st) /\
  loads_of (trace (hook (state_after (load_effect p) st)))
  = loads_of (trace (hook st)) /\
  prevMusicXMLRef (state_after (load_effect p) st) = prevMusicXMLRef st.
Proof.
  intros p st.
  apply (whitespace_musicXML_not_loaded p st "   ").
  - reflexivity.
  - discriminate.
  - reflexivity.
Defined.

(** C2 as stated fails: with the hook bound to an engine, [file=""] and
    no [musicXML], the effect leaves the store as it was and the engine's
    [load] is not called, with [""] or with anything else. *)
Lemma empty_file_is_not_loaded :
  let st := Samples.ready Samples.steady_engine in
  let st' := state_after (load_effect Samples.empty_file_props) st in
  st' = st /\
  loads_of (trace (hook st')) = [] /\
  ~ In (Path "") (loads_of (trace (hook st'))).
Proof.
  split; [reflexivity |]. split; [reflexivity |]. intros [].
Qed.

(** C2, amended: [file=""] with no [musicXML] (absent or empty) is
    treated as absent.  The effect returns without calling the hook's
    [load] and without writing any cell, exactly as it does for an empty
    [musicXML] alone. *)
Theorem empty_file_treated_as_absent (p : Props) (st : State) :
  file p = Some (FilePath "") ->
  musicXML p = None \/ musicXML p = Some "" ->
  load_effect p st = (Returned tt, st) /\
  loads_of (trace (hook (state_after (load_effect p) st)))
  = loads_of (trace (hook st)).
Proof.
  intros Hf Hx.
  assert (Heff : load_effect p st = (Returned tt, st)).
  { destruct (load_effect_cases p st) as [H | (_ & _ & Ht & _)]; [exact H |].
    rewrite Hf in Ht. destruct Hx as [Hx | Hx]; rewrite Hx in Ht;
      simpl in Ht; destruct Ht; discriminate. }
  unfold state_after. rewrite Heff. split; reflexivity.
Qed.

Lemma empty_file_treated_as_absent_witness :
  let st := Samples.ready Samples.steady_engine in
  load_effect Samples.empty_file_props st = (Returned tt, st) /\
  loads_of (trace (hook (state_after (load_effect Samples.empty_file_props) st)))
  = loads_of (trace (hook st)).
Proof.
  intros st.
  apply (empty_file_treated_as_absent Samples.empty_file_props st).
  - reflexivity.
  - left. reflexivity.
Defined.

(** A non-empty [file] path alone is loaded as it is. *)
Example file_path_is_loaded :
  loads_of (trace (hook (state_after
     (load_effect (Samples.props_of (Some (FilePath "test.musicxml")) None))
     (Samples.ready Samples.steady_engine))))
  = [Path "test.musicxml"].
Proof. reflexivity. Qed.

(** C4: with a non-empty [musicXML], whatever [file] is, every call of
    the engine's [load] that the effect makes is handed the [Document]
    obtained by parsing [musicXML] as ["text/xml"], never the string
    itself and never the [file]; [prevFileRef] is not written.  And when
    the effect does trigger (an instance is bound, one of the two props
    changed, [musicXML] does not trim to nothing), the engine's [load] is
    called exactly once, with that [Document]. *)
Theorem musicXML_loaded_as_Document
  (p : Props) (st : State) (xml : string) :
  musicXML p = Some xml -> xml <> "" ->
  let document := Doc (parseFromString xml "text/xml") in
  let st' := state_after (load_effect p) st in
  exists events,
    trace (hook st') = trace (hook st) ++ events /\
    (forall source, In source (loads_of events) -> source = document) /\
    ~ In (Path xml) (loads_of events) /\
    prevFileRef st' = prevFileRef st /\
    (osmd (hook st) <> None -> osmdRef (hook st) <> None ->
     file p <> prevFileRef st \/ musicXML p <> prevMusicXMLRef st ->
     trim xml <> "" ->
     loads_of events = [document] /\ prevMusicXMLRef st' = Some xml).
Proof.
  intros Hxml Hne document st'.
  assert (Htruthy : truthy_musicXML (musicXML p) = true).
  { rewrite Hxml. destruct xml; [congruence | reflexivity]. }
  destruct (is_empty (trim xml)) eqn:Hblank.
  - (* white space only: the block returns *)
    apply is_empty_true in Hblank.
    assert (Heff : load_effect p st = (Returned tt, st)).
    { destruct (load_effect_cases p st) as [H | (_ & _ & _ & H)]; [exact H |].
      rewrite H.
      now rewrite (loadMusic_returns p st
                     (resolve_source_blank p st xml Hxml Hne Hblank)). }
    unfold st', state_after. rewrite Heff. simpl.
    exists []. rewrite app_nil_r. simpl.
    split; [reflexivity |]. split; [tauto |]. split; [tauto |].
    split; [reflexivity |]. intros _ _ _ Hn. contradiction.
  - assert (Htrim : trim xml <> "").
    { intros H. apply is_empty_true in H. congruence. }
    pose proof (resolve_source_musicXML p st xml Hxml Htrim) as Hres.
    pose proof (loadMusic_resolved p st _ _ Hres) as (Hgrow & Hf & Hx).
    simpl in Hgrow, Hf, Hx.
    destruct Hgrow as (events & Htrace & Hloads & _).
    assert (Hin : forall source, In source (handed_over (hook st) document) ->
                                 source = document).
    { unfold handed_over. destruct (osmdRef (hook st)); simpl; intuition. }
    destruct (load_effect_cases p st) as [Hskip | (Ho & Hch & _ & Hrun)].
    + (* the guards stop the effect *)
      unfold st', state_after. rewrite Hskip. simpl.
      exists []. rewrite app_nil_r. simpl.
      split; [reflexivity |]. split; [tauto |]. split; [tauto |].
      split; [reflexivity |].
      intros Ho Hb Hch _.
      rewrite (load_effect_triggers p st Ho Hch (or_intror Htruthy)) in Hskip.
      injection Hskip as Hsame.
      rewrite Hsame in Hx. rewrite Hsame in Htrace.
      assert (Hnil : events = []).
      { apply (app_inv_head (trace (hook st))). now rewrite app_nil_r. }
      subst events. unfold handed_over in Hloads.
      destruct (osmdRef (hook st)); [discriminate | congruence].
    + unfold st', state_after. rewrite Hrun. simpl.
      exists events. rewrite Hloads.
      split; [exact Htrace |]. split; [exact Hin |].
      split; [intros H; apply Hin in H; discriminate |].
      split; [exact Hf |].
      intros _ Hb _ _. split; [| exact Hx].
      unfold handed_over. destruct (osmdRef (hook st)); [reflexivity | congruence].
Qed.

Lemma musicXML_loaded_as_Document_witness :
  let p := Samples.props_of (Some (FilePath "test.musicxml"))
                            (Some Samples.score) in
  let st := Samples.ready Samples.steady_engine in
  let document := Doc (parseFromString Samples.score "text/xml") in
  let st' := state_after (load_effect p) st in
  exists events,
    trace (hook st') = trace (hook st) ++ events /\
    loads_of events = [document] /\
    prevFileRef st' = None /\
    prevMusicXMLRef st' = Some Samples.score.
Proof.
  intros p st document st'.
  destruct (musicXML_loaded_as_Document p st Samples.score eq_refl)
    as (events & Htrace & _ & _ & Hfile & Htriggered).
  - discriminate.
  - exists events.
    destruct Htriggered as [Hloads Hprev].
    + discriminate.
    + discriminate.
    + right. discriminate.
    + discriminate.
    + repeat split; assumption.
Defined.

End ComponentFacts.

(* ===================================================================== *)
(** * More on the cursor-list hook *)
(* ===================================================================== *)

Section CursorListFacts.

Import UseMultipleCursors.

Lemma filter_from_position (i n : nat) (l : list CursorOptions) :
  filter_from (fun _ j => negb (same_index j (Z.of_nat (i + n)))) i l
  = take n l ++ drop (S n) l.
Proof.
  revert i n. induction l as [| x l IH]; intros i n; simpl.
  - now destruct n.
  - destruct n as [| n]; simpl.
    + replace (i + 0) with i by lia.
      unfold same_index at 1. rewrite Z.eqb_refl. simpl.
      rewrite drop_0.
      apply filter_from_misses. unfold misses. lia.
    + assert (Hne : same_index i (Z.of_nat (i + S n)) = false).
      { unfold same_index. apply Z.eqb_neq. lia. }
      rewrite Hne. simpl. f_equal.
      replace (i + S n) with (S i + n) by lia. apply IH.
Qed.

Lemma map_from_position (i n : nat) update (l : list CursorOptions) (k : nat) :
  map_from (fun cursor j =>
              if same_index j (Z.of_nat (i + n)) then spread cursor update
              else cursor) i l !! k
  = (fun cursor => if decide (k = n) then spread cursor update else cursor)
      <$> l !! k.
Proof.
  revert i n k. induction l as [| x l IH]; intros i n k; simpl.
  - reflexivity.
  - destruct k as [| k]; simpl.
    + destruct n as [| n].
      * replace (i + 0) with i by lia.
        unfold same_index. now rewrite Z.eqb_refl.
      * assert (Hne : same_index i (Z.of_nat (i + S n)) = false).
        { unfold same_index. apply Z.eqb_neq. lia. }
        now rewrite Hne.
    + destruct n as [| n].
      * replace (i + 0) with i by lia.
        rewrite (map_from_misses (Z.of_nat i) update (S i) l)
          by (unfold misses; lia).
        destruct (l !! k); reflexivity.
      * replace (i + S n) with (S i + n) by lia. rewrite IH.
        destruct (l !! k) as [c |]; simpl; [| reflexivity].
        destruct (decide (k = n)), (decide (S k = S n));
          try reflexivity; lia.
Qed.

Lemma map_from_length {A B : Type} (f : A -> nat -> B) i (l : list A) :
  length (map_from f i l) = length l.
Proof.
  revert i. induction l as [| x l IH]; intros i; simpl; [reflexivity |].
  now rewrite IH.
Qed.

Lemma spread_idempotent cursor update :
  spread (spread cursor update) update = spread cursor update.
Proof.
  destruct update as [[t |] [c |] [a |] [f |]]; reflexivity.
Qed.

(** X1: [removeCursor(n)] removes exactly the element at position [n]:
    what comes before and what comes after are kept, in order.  (For [n]
    at or beyond the length this is the whole list.) *)
Theorem removeCursor_removes_position (n : nat) (cursors : list CursorOptions) :
  removeCursor (Z.of_nat n) cursors = take n cursors ++ drop (S n) cursors.
Proof. exact (filter_from_position 0 n cursors). Qed.

(** X2: [updateCursor(n, update)] keeps the length of the list, replaces
    the element at position [n] by its merge with the update, and leaves
    every other position as it was. *)
Theorem updateCursor_updates_position
  (n : nat) (update : PartialCursorOptions) (cursors : list CursorOptions) :
  length (updateCursor (Z.of_nat n) update cursors) = length cursors /\
  forall k,
    updateCursor (Z.of_nat n) update cursors !! k
    = (fun cursor => if decide (k = n) then spread cursor update else cursor)
        <$> cursors !! k.
Proof.
  split.
  - apply map_from_length.
  - intros k. exact (map_from_position 0 n update cursors k).
Qed.

(** X3: [addCursor] appends: the new cursor sits at the old length, the
    cursors already there keep their positions, and removing the position
    just added gives the list back. *)
Theorem addCursor_then_remove (cursor : CursorOptions) (cursors : list CursorOptions) :
  addCursor cursor cursors !! length cursors = Some cursor /\
  (forall k, k < length cursors ->
             addCursor cursor cursors !! k = cursors !! k) /\
  removeCursor (Z.of_nat (length cursors)) (addCursor cursor cursors) = cursors.
Proof.
  unfold addCursor. split; [| split].
  - rewrite lookup_app_r by lia. now rewrite Nat.sub_diag.
  - intros k Hk. now rewrite lookup_app_l.
  - pose proof (filter_from_position 0 (length cursors) (cursors ++ [cursor]))
      as Hremove.
    simpl in Hremove. unfold removeCursor, array_filter. rewrite Hremove.
    rewrite take_app_length.
    rewrite drop_ge by (rewrite length_app; simpl; lia).
    apply app_nil_r.
Qed.

Lemma addCursor_then_remove_witness :
  addCursor Samples.blue [Samples.red] !! 0 = [Samples.red] !! 0.
Proof.
  apply (addCursor_then_remove Samples.blue [Samples.red]).
  simpl. lia.
Defined.

Lemma map_from_idempotent index update i (l : list CursorOptions) :
  let f := fun cursor j =>
             if same_index j index then spread cursor update else cursor in
  map_from f i (map_from f i l) = map_from f i l.
Proof.
  intros f. revert i. induction l as [| x l IH]; intros i; simpl.
  - reflexivity.
  - rewrite IH. f_equal. unfold f.
    destruct (same_index i index); [apply spread_idempotent | reflexivity].
Qed.

(** X4: applying the same update twice at the same index is the same as
    applying it once, for every integer index. *)
Theorem updateCursor_idempotent
  (index : Z) (update : PartialCursorOptions) (cursors : list CursorOptions) :
  updateCursor index update (updateCursor index update cursors)
  = updateCursor index update cursors.
Proof. exact (map_from_idempotent index update 0 cursors). Qed.

End CursorListFacts.

(* ===================================================================== *)
(** * More on the coloring hook *)
(* ===================================================================== *)

Section ColoringRunFacts.

Import UseColoring UseColoring_runs.

Lemma fold_step_cells actions st :
  let st' := fold_left step actions st in
  coloringMode st' = latest mode_set actions (coloringMode st) /\
  customColors st' = latest colors_set actions (customColors st) /\
  coloringEnabled st' = latest enabled_set actions (coloringEnabled st) /\
  darkMode st' = latest darkMode_set actions (darkMode st).
Proof.
  revert st. induction actions as [| a actions IH]; intros st; simpl.
  - repeat split.
  - specialize (IH (step st a)). simpl in IH.
    unfold latest in *. simpl.
    destruct a; simpl in *; exact IH.
Qed.

(** X5: the four cells are independent.  After any sequence of setter
    calls each cell holds the argument of the last call of its own setter,
    or its initial value if that setter was never called: [mode ?? XML],
    [customColors ?? defaultBoomwhackerColors], [enabled ?? false] and
    [false]. *)
Theorem coloring_last_write_wins
  (initialOptions : UseColoringOptions) (actions : list Action) :
  let st := run initialOptions actions in
  coloringMode st = latest mode_set actions (default XML (mode initialOptions)) /\
  customColors st
  = latest colors_set actions
           (default defaultBoomwhackerColors (customColors_opt initialOptions)) /\
  coloringEnabled st
  = latest enabled_set actions (default false (enabled initialOptions)) /\
  darkMode st = latest darkMode_set actions false.
Proof. exact (fold_step_cells actions (useColoring initialOptions)). Qed.

(** X6: the options object of [getOptions] carries the custom palette
    exactly when the mode is [CustomColorSet], and then it is the current
    [customColors]; the mode, the enabled flag and the dark-mode flag are
    passed on as they are. *)
Theorem getOptions_custom_palette (st : State) (colors : list string) :
  (opt_coloringSetCustom (getOptions st) = Some colors <->
   coloringMode st = CustomColorSet /\ customColors st = colors) /\
  opt_coloringMode (getOptions st) = coloringMode st /\
  opt_coloringEnabled (getOptions st) = coloringEnabled st /\
  opt_darkMode (getOptions st) = darkMode st.
Proof.
  split; [| repeat split].
  unfold getOptions. simpl.
  destruct (coloringMode st); simpl; split.
  - discriminate.
  - intros [H _]. discriminate.
  - discriminate.
  - intros [H _]. discriminate.
  - intros H. injection H as ->. split; reflexivity.
  - intros [_ ->]. reflexivity.
Qed.

End ColoringRunFacts.

(* ===================================================================== *)
(** * More on the page-format hook *)
(* ===================================================================== *)

Section PageFormatInitFacts.

Import Js UsePageFormat UsePageFormat_init.

Lemma PageFormats_idString name pf :
  PageFormats !! name = Some pf -> idString pf = name.
Proof.
  intros H. unfold PageFormats in H.
  apply elem_of_list_to_map_2 in H.
  repeat (apply elem_of_cons in H as [H | H];
          [injection H as -> ->; reflexivity |]).
  now apply elem_of_nil in H.
Qed.

(** X7: every entry of the registry is filed under its own [idString]: for
    a registered name, [setFormat(name)] stores the entry whatever the
    format was before, and [formatId] then reads that name back. *)
Theorem setFormat_formatId (name : string) (pf : PageFormat) (prev : Stored) :
  PageFormats !! name = Some pf ->
  setFormat (ByName name) prev = Returned (Obj pf) /\
  formatId (Obj pf) = Some name.
Proof.
  intros H. split.
  - unfold setFormat. unfold get at 1. now rewrite H.
  - simpl. f_equal. now apply PageFormats_idString.
Qed.

Lemma setFormat_formatId_witness :
  setFormat (ByName "Letter_L") (Obj A4_P) = Returned (Obj Letter_L) /\
  formatId (Obj Letter_L) = Some "Letter_L".
Proof.
  apply (setFormat_formatId "Letter_L" Letter_L (Obj A4_P)).
  reflexivity.
Defined.

(** X8: the first render.  Without [initialFormat], or with the empty
    string, the format is the endless one; a [PageFormat] object is taken as
    it is; and a name that is not a property of [Object.prototype] gives the
    format that [setFormat] gives for that name later, from any state: its
    registry entry, or the endless format if it has none. *)
Theorem usePageFormat_initial_format :
  usePageFormat None = Returned (Obj Endless) /\
  usePageFormat (Some (ByName "")) = Returned (Obj Endless) /\
  (forall pf, usePageFormat (Some (ByValue pf)) = Returned (Obj pf)) /\
  (forall name prev,
      name ∉ Object_prototype_keys ->
      usePageFormat (Some (ByName name)) = setFormat (ByName name) prev).
Proof.
  split; [reflexivity |]. split; [reflexivity |]. split; [reflexivity |].
  intros name prev Hk.
  unfold usePageFormat, getInitialFormat, setFormat.
  destruct (PageFormats !! name) as [pf |] eqn:Hlookup.
  - rewrite (get_own _ _ _ Hlookup).
    destruct name as [| ch name]; [discriminate Hlookup | reflexivity].
  - rewrite (get_undefined _ _ Hlookup Hk). simpl.
    destruct (truthy_string name); reflexivity.
Qed.

Lemma usePageFormat_initial_format_witness :
  usePageFormat (Some (ByName "A5_L")) = setFormat (ByName "A5_L") (Obj Endless) /\
  usePageFormat (Some (ByName "InvalidFormat"))
  = setFormat (ByName "InvalidFormat") (Obj A4_P).
Proof.
  destruct usePageFormat_initial_format as (_ & _ & _ & Hname).
  split; apply Hname; unfold Object_prototype_keys; intros H;
    repeat (apply elem_of_cons in H as [H | H]; [discriminate |]);
    now apply elem_of_nil in H.
Defined.

End PageFormatInitFacts.

(* ===================================================================== *)
(** * The other operations of the engine-binding hook *)
(* ===================================================================== *)

Section HookOperationFacts.

Import Js Effect UseOSMD UseOSMD_ops UseOSMD_facets.

Ltac run_ops :=
  unfold render, setZoom, write_zoom, renderAndScrollBack, updateGraphic,
    setOptions, isReadyToRender, cursor_op, set_hidden, set_hidden_rev,
    set_skipInvisibleNotes, write_cursor, invoke, UseOSMD_facets.call_member,
    record, finish, in_cells, cleanup,
    try_catch_finally, try_finally, try_catch, detached, zoom_on,
    engine_load, engine_render, engine_clear, call_engine,
    setIsLoading, setError, setOsmd, setZoomValue, write_initRef,
    write_osmdRef, emit, modify, bind, get_state, settle, ret, raise,
    result_of, state_after in *;
  simpl in *.

Lemma store_eta (st : Store) :
  {| cells := cells st; members := members st; calls := calls st |} = st.
Proof. now destruct st. Qed.

Lemma bound_cursor_unbound (st : Store) :
  osmdRef (cells st) = None -> bound_cursor st = None.
Proof. intros H. unfold bound_cursor. now rewrite H. Qed.

(** X9: before an instance exists, [render], [renderAndScrollBack],
    [updateGraphic] and [setOptions] raise [NotInitialized], while
    [setZoom], [isReadyToRender] (which answers [false]) and the cleanup
    return; none of them changes a cell or reaches the engine. *)
Theorem operations_without_instance (st : Store) :
  osmdRef (cells st) = None ->
  in_cells render st = (Raised NotInitialized, st) /\
  renderAndScrollBack st = (Raised NotInitialized, st) /\
  updateGraphic st = (Raised NotInitialized, st) /\
  (forall options, setOptions options st = (Raised NotInitialized, st)) /\
  (forall scale, in_cells (setZoom scale) st = (Returned tt, st)) /\
  isReadyToRender st = (Returned false, st) /\
  in_cells cleanup st = (Returned tt, st).
Proof.
  intros H. run_ops. rewrite H. simpl. rewrite store_eta.
  repeat split.
Qed.

Lemma operations_without_instance_witness :
  let st := Samples_more.unbound_with Samples_more.no_members in
  in_cells render st = (Raised NotInitialized, st) /\
  in_cells (setZoom (3 # 2)) st = (Returned tt, st) /\
  isReadyToRender st = (Returned false, st).
Proof.
  intros st.
  destruct (operations_without_instance st eq_refl)
    as (Hrender & _ & _ & _ & Hzoom & Hready & _).
  split; [exact Hrender |]. split; [exact (Hzoom (3 # 2)) | exact Hready].
Defined.

(** X10: without a cursor to talk to (no instance, or an instance that has
    no [cursor]), the nine operations of the cursor facet and the three
    setters return without doing anything, [hidden] reads [true] and
    [skipInvisibleNotes] reads [false]. *)
Theorem cursor_facet_without_cursor (st : Store) :
  bound_cursor st = None ->
  (forall m, cursor_op m st = (Returned tt, st)) /\
  (forall value, set_hidden value st = (Returned tt, st)) /\
  (forall value, set_hidden_rev value st = (Returned tt, st)) /\
  (forall value, set_skipInvisibleNotes value st = (Returned tt, st)) /\
  hidden st = true /\
  skipInvisibleNotes st = false.
Proof.
  intros H. unfold hidden, skipInvisibleNotes. run_ops. rewrite H.
  repeat split.
Qed.

Lemma cursor_facet_without_cursor_witness :
  let unbound := Samples_more.unbound_with
                   (Samples_more.members_with Samples_more.full_cursor) in
  let cursorless := Samples_more.bound_with Samples_more.no_members in
  cursor_op CursorShow unbound = (Returned tt, unbound) /\
  cursor_op CursorHide cursorless = (Returned tt, cursorless) /\
  hidden unbound = true /\ hidden cursorless = true.
Proof.
  intros unbound cursorless.
  destruct (cursor_facet_without_cursor unbound eq_refl)
    as (Hop1 & _ & _ & _ & Hh1 & _).
  destruct (cursor_facet_without_cursor cursorless eq_refl)
    as (Hop2 & _ & _ & _ & Hh2 & _).
  split; [apply Hop1 |]. split; [apply Hop2 |].
  split; [exact Hh1 | exact Hh2].
Defined.

Lemma setZoom_bound_state scale st engine :
  osmdRef st = Some engine ->
  setZoom scale st
  = (match render_outcome engine (trace st ++ [SetZoomValue scale; EngineRender]) with
     | Completes => Returned tt
     | Throws v => Raised v
     end,
     {| osmd := with_zoom scale <$> osmd st; isLoading := isLoading st;
        error := error st; zoomValue := scale; initRef := initRef st;
        osmdRef := Some (with_zoom scale engine);
        trace := trace st ++ [SetZoomValue scale; EngineRender] |}).
Proof.
  intros Hb. run_ops.
  do 2 (rewrite ?Hb; simpl; rewrite <- ?app_assoc; simpl).
  destruct (render_outcome engine _); reflexivity.
Qed.

Lemma renders_app tr1 tr2 : renders (tr1 ++ tr2) = renders tr1 + renders tr2.
Proof. unfold renders. now rewrite List.filter_app, length_app. Qed.

(** X11: with an instance bound, [setZoom(scale)] writes the scale to the
    engine's [zoom] field (the [osmd] cell sees the same instance), mirrors
    it in the [zoom] cell and calls the engine's [render] exactly once;
    [isLoading] and [error] are untouched.  The call ends the way that
    [render] ends: if [render] throws, the exception reaches the caller
    and the zoom has been written all the same. *)
Theorem setZoom_with_instance (scale : Q) (st : State) (engine : Engine) :
  osmdRef st = Some engine ->
  let st' := state_after (setZoom scale) st in
  engine_zoom st' = Some scale /\
  zoom <$> osmd st' = (fun _ => scale) <$> osmd st /\
  zoomValue st' = scale /\
  renders (trace st') = S (renders (trace st)) /\
  engine_calls (trace st') = engine_calls (trace st) ++ [EngineRender] /\
  isLoading st' = isLoading st /\ error st' = error st /\
  result_of (setZoom scale) st
  = match render_outcome engine
            (trace st ++ [SetZoomValue scale; EngineRender]) with
    | Completes => Returned tt
    | Throws v => Raised v
    end.
Proof.
  intros Hb st'. unfold st', state_after, result_of.
  rewrite (setZoom_bound_state scale st engine Hb). simpl.
  unfold engine_zoom. simpl.
  split; [reflexivity |].
  split; [now destruct (osmd st) |].
  split; [reflexivity |].
  split; [rewrite renders_app; unfold renders; simpl; lia |].
  split; [now rewrite engine_calls_app |].
  repeat split.
Qed.

Lemma setZoom_with_instance_witness :
  let st := Samples.bound_to Samples.steady_engine in
  let st' := state_after (setZoom (3 # 2)) st in
  engine_zoom st' = Some (3 # 2) /\ zoomValue st' = 3 # 2 /\
  renders (trace st') = 1 /\
  result_of (setZoom (3 # 2)) st = Returned tt.
Proof.
  intros st st'.
  destruct (setZoom_with_instance (3 # 2) st Samples.steady_engine eq_refl)
    as (Hzoom & _ & Hvalue & Hrenders & _ & _ & _ & Hresult).
  split; [exact Hzoom |]. split; [exact Hvalue |].
  split; [exact Hrenders | exact Hresult].
Defined.

(** X12: [renderAndScrollBack] is [render] when the engine has no such
    method.  When it has one, that method is called once, the engine's
    plain [render] is not called, no cell changes, and the call ends the
    way the method ends. *)
Theorem renderAndScrollBack_falls_back (st : Store) :
  (renderAndScrollBack_member (members st) = None ->
   renderAndScrollBack st = in_cells render st) /\
  (forall f engine,
      renderAndScrollBack_member (members st) = Some f ->
      osmdRef (cells st) = Some engine ->
      renderAndScrollBack st
      = (match f (calls st ++ [RenderAndScrollBack]) with
         | Completes => Returned tt
         | Throws v => Raised v
         end,
         {| cells := cells st; members := members st;
            calls := calls st ++ [RenderAndScrollBack] |})).
Proof.
  split.
  - intros H. run_ops. rewrite H.
    destruct (osmdRef (cells st)); [reflexivity | now rewrite store_eta].
  - intros f engine H Hb. run_ops. rewrite H, Hb.
    destruct (f _); reflexivity.
Qed.

Lemma renderAndScrollBack_falls_back_witness :
  let plain := Samples_more.bound_with Samples_more.no_members in
  let st := Samples_more.bound_with
              (mkMembers (Some (fun _ => Completes)) None None None None) in
  renderAndScrollBack plain = in_cells render plain /\
  renderAndScrollBack st
  = (Returned tt,
     {| cells := cells st; members := members st;
        calls := [RenderAndScrollBack] |}).
Proof.
  intros plain st. split.
  - exact (proj1 (renderAndScrollBack_falls_back plain) eq_refl).
  - exact (proj2 (renderAndScrollBack_falls_back st) _ Samples.steady_engine
                 eq_refl eq_refl).
Defined.

(** X13: with an instance bound, a missing [updateGraphic] or [setOptions]
    makes the call return without doing anything (it does not raise and
    does not fall back to [render]), and a missing [IsReadyToRender] makes
    [isReadyToRender] answer [true]. *)
Theorem missing_members_are_tolerated (st : Store) (engine : Engine) :
  osmdRef (cells st) = Some engine ->
  (updateGraphic_member (members st) = None ->
   updateGraphic st = (Returned tt, st)) /\
  (setOptions_member (members st) = None ->
   forall options, setOptions options st = (Returned tt, st)) /\
  (IsReadyToRender_member (members st) = None ->
   isReadyToRender st = (Returned true, st)).
Proof.
  intros Hb. run_ops. rewrite Hb.
  repeat split; intros H; try intros options; now rewrite H.
Qed.

Lemma missing_members_are_tolerated_witness :
  let st := Samples_more.bound_with Samples_more.no_members in
  updateGraphic st = (Returned tt, st) /\
  setOptions ∅ st = (Returned tt, st) /\
  isReadyToRender st = (Returned true, st).
Proof.
  intros st.
  destruct (missing_members_are_tolerated st Samples.steady_engine eq_refl)
    as (Hgraphic & Hoptions & Hready).
  split; [exact (Hgraphic eq_refl) |].
  split; [exact (Hoptions eq_refl ∅) | exact (Hready eq_refl)].
Defined.

(** X14: with an instance bound, [setOptions(options)] hands exactly those
    options to the engine's [setOptions], once, and [isReadyToRender]
    answers what the engine's [IsReadyToRender] answers; neither changes a
    cell, and an exception of the engine reaches the caller. *)
Theorem present_members_are_delegated_to (st : Store) (engine : Engine) :
  osmdRef (cells st) = Some engine ->
  (forall f options,
      setOptions_member (members st) = Some f ->
      setOptions options st
      = (match f options (calls st ++ [SetOptions options]) with
         | Completes => Returned tt
         | Throws v => Raised v
         end,
         {| cells := cells st; members := members st;
            calls := calls st ++ [SetOptions options] |})) /\
  (forall f,
      IsReadyToRender_member (members st) = Some f ->
      isReadyToRender st
      = (f (calls st ++ [IsReadyToRender]),
         {| cells := cells st; members := members st;
            calls := calls st ++ [IsReadyToRender] |})).
Proof.
  intros Hb. run_ops. rewrite Hb. split.
  - intros f options H. rewrite H. destruct (f options _); reflexivity.
  - intros f H. rewrite H. destruct (f _); reflexivity.
Qed.

Lemma present_members_are_delegated_to_witness :
  let st := Samples_more.bound_with
              (mkMembers None None (Some (fun _ _ => Completes))
                         (Some (fun _ => Returned false)) None) in
  setOptions ∅ st
  = (Returned tt,
     {| cells := cells st; members := members st; calls := [SetOptions ∅] |}) /\
  isReadyToRender st
  = (Returned false,
     {| cells := cells st; members := members st; calls := [IsReadyToRender] |}).
Proof.
  intros st.
  destruct (present_members_are_delegated_to st Samples.steady_engine eq_refl)
    as (Hoptions & Hready).
  split; [exact (Hoptions _ ∅ eq_refl) | exact (Hready _ eq_refl)].
Defined.

End HookOperationFacts.

(* ===================================================================== *)
(** * The cursor facet and the cleanup *)
(* ===================================================================== *)

Section CursorFacetFacts.

Import Js Effect UseOSMD UseOSMD_ops UseOSMD_facets.

Ltac run_facet :=
  unfold cursor_op, set_hidden, set_hidden_rev, set_skipInvisibleNotes,
    write_cursor, invoke, record, finish, hidden, skipInvisibleNotes,
    modify, bind, get_state, ret, raise, result_of, state_after in *;
  simpl in *.

Lemma bound_cursor_bound (st : Store) (c : Cursor) :
  bound_cursor st = Some c -> exists engine, osmdRef (cells st) = Some engine.
Proof.
  unfold bound_cursor. destruct (osmdRef (cells st)) as [engine |];
    [now exists engine | discriminate].
Qed.

(** X15: an operation of the cursor facet on a cursor [c].  If [c] has the
    method, it is called exactly once and the operation ends the way the
    method ends.  If it has not, [nextMeasure], [previousMeasure],
    [resetIterator] and [update] return without doing anything, while
    [show], [hide], [next], [previous] and [reset], which are called
    unchecked, raise a [TypeError]. *)
Theorem cursor_op_on_cursor (st : Store) (c : Cursor) (m : CursorMethod) :
  bound_cursor st = Some c ->
  cursor_op m st
  = if has c m then
      (match cursor_outcome c m (calls st ++ [CursorCall m]) with
       | Completes => Returned tt
       | Throws v => Raised v
       end, called st m)
    else if probed m then (Returned tt, st)
    else (Raised not_a_function, st).
Proof.
  intros H. unfold called. run_facet. rewrite H.
  destruct (probed m), (has c m); simpl; try reflexivity;
    destruct (cursor_outcome c m _); reflexivity.
Qed.

Lemma cursor_op_on_cursor_witness :
  let st := Samples_more.bound_with
              (Samples_more.members_with Samples_more.bare_cursor) in
  cursor_op CursorNext st = (Returned tt, called st CursorNext) /\
  cursor_op CursorNextMeasure st = (Returned tt, st).
Proof.
  intros st. split.
  - exact (cursor_op_on_cursor st Samples_more.bare_cursor CursorNext eq_refl).
  - exact (cursor_op_on_cursor st Samples_more.bare_cursor CursorNextMeasure
                               eq_refl).
Defined.

(** X16: the two writable properties of the cursor facet in
    [src/hooks/useOSMD.ts].  With a cursor, what is written to [hidden] or
    to [skipInvisibleNotes] is what is read back, the other property is
    not affected, and no method of the cursor is called. *)
Theorem cursor_properties_read_back (st : Store) (c : Cursor) (value : bool) :
  bound_cursor st = Some c ->
  let h := state_after (set_hidden value) st in
  let s := state_after (set_skipInvisibleNotes value) st in
  hidden h = value /\
  skipInvisibleNotes h = skipInvisibleNotes st /\
  calls h = calls st /\ cells h = cells st /\
  skipInvisibleNotes s = value /\
  hidden s = hidden st /\
  calls s = calls st /\ cells s = cells st.
Proof.
  intros H h s. unfold h, s.
  destruct (bound_cursor_bound st c H) as [engine Hb].
  run_facet. rewrite H. simpl. unfold bound_cursor. simpl. rewrite Hb.
  repeat split.
Qed.

Lemma cursor_properties_read_back_witness :
  let st := Samples_more.bound_with
              (Samples_more.members_with Samples_more.bare_cursor) in
  hidden st = true /\
  hidden (state_after (set_hidden false) st) = false /\
  skipInvisibleNotes (state_after (set_skipInvisibleNotes true) st) = true.
Proof.
  intros st.
  destruct (cursor_properties_read_back st Samples_more.bare_cursor false
                                        eq_refl)
    as (Hhidden & _).
  destruct (cursor_properties_read_back st Samples_more.bare_cursor true
                                        eq_refl)
    as (_ & _ & _ & _ & Hskip & _).
  split; [reflexivity |]. split; [exact Hhidden | exact Hskip].
Defined.

(** X17: the [hidden] setter of the second revision.  It calls the
    cursor's [hide] (for [true]) or [show] (for [false]) if the cursor has
    it, and writes the [Hidden] field only if the cursor already has that
    field.  So on a cursor without the field, [hidden] still reads [true]
    after [hidden = false].  If the method throws, the exception reaches
    the caller and the field is not written. *)
Theorem set_hidden_rev_on_cursor (st : Store) (c : Cursor) (value : bool) :
  bound_cursor st = Some c ->
  let m := if value then CursorHide else CursorShow in
  let st' := state_after (set_hidden_rev value) st in
  let written := match Hidden c with Some _ => value | None => true end in
  if has c m then
    calls st' = calls st ++ [CursorCall m] /\
    match cursor_outcome c m (calls st ++ [CursorCall m]) with
    | Completes =>
        result_of (set_hidden_rev value) st = Returned tt /\
        hidden st' = written
    | Throws v =>
        result_of (set_hidden_rev value) st = Raised v /\
        hidden st' = hidden st
    end
  else
    calls st' = calls st /\
    result_of (set_hidden_rev value) st = Returned tt /\
    hidden st' = written.
Proof.
  intros H m st' written. subst m st' written.
  destruct (bound_cursor_bound st c H) as [engine Hb].
  assert (Hc : cursor_member (members st) = Some c).
  { unfold bound_cursor in H. now rewrite Hb in H. }
  run_facet. rewrite H. simpl.
  destruct (has c (if value then CursorHide else CursorShow)); simpl.
  - split.
    + destruct (cursor_outcome c _ _); simpl; [| reflexivity].
      destruct (Hidden c); reflexivity.
    + destruct (cursor_outcome c _ _); simpl.
      * destruct (Hidden c) eqn:Hh; simpl; unfold bound_cursor; simpl;
          rewrite Hb; simpl; rewrite ?Hc; simpl; rewrite ?Hh;
          split; reflexivity.
      * unfold bound_cursor. simpl. rewrite Hb, Hc. split; reflexivity.
  - destruct (Hidden c) eqn:Hh; simpl; unfold bound_cursor; simpl;
      rewrite Hb; simpl; rewrite ?Hc; simpl; rewrite ?Hh; repeat split.
Qed.

Lemma set_hidden_rev_on_cursor_witness :
  let bare := Samples_more.bound_with
                (Samples_more.members_with Samples_more.bare_cursor) in
  let full := Samples_more.bound_with
                (Samples_more.members_with Samples_more.full_cursor) in
  hidden (state_after (set_hidden_rev false) bare) = true /\
  calls (state_after (set_hidden_rev false) bare) = [CursorCall CursorShow] /\
  hidden (state_after (set_hidden_rev true) full) = true /\
  hidden (state_after (set_hidden_rev false) full) = false.
Proof.
  intros bare full.
  pose proof (set_hidden_rev_on_cursor bare Samples_more.bare_cursor false
                                       eq_refl) as Hbare.
  pose proof (set_hidden_rev_on_cursor full Samples_more.full_cursor true
                                       eq_refl) as Hfull1.
  pose proof (set_hidden_rev_on_cursor full Samples_more.full_cursor false
                                       eq_refl) as Hfull2.
  simpl in Hbare, Hfull1, Hfull2.
  destruct Hbare as (Hcalls & _ & Hh).
  destruct Hfull1 as (_ & _ & Hh1).
  destruct Hfull2 as (_ & _ & Hh2).
  split; [exact Hh |]. split; [exact Hcalls |].
  split; [exact Hh1 | exact Hh2].
Defined.

(** X18: the cleanup of the init effect never raises, whatever the
    engine's [clear] does.  It calls [clear] once if an instance is bound
    and not at all otherwise, and changes no cell. *)
Theorem cleanup_never_raises (st : State) :
  cleanup st
  = (Returned tt,
     settled st (isLoading st) (error st)
             (match osmdRef st with
              | Some _ => [EngineClear]
              | None => []
              end)).
Proof.
  unfold cleanup, settled, try_catch, engine_clear, call_engine, emit,
    modify, bind, get_state, settle, ret, raise.
  simpl.
  destruct (osmdRef st) as [engine |] eqn:Hb; simpl.
  - rewrite Hb. simpl.
    destruct (clear_outcome engine (trace st ++ [EngineClear]));
      simpl; rewrite <- Hb; reflexivity.
  - rewrite app_nil_r, <- Hb. now destruct st.
Qed.

End CursorFacetFacts.

(* ===================================================================== *)
(** * What holds throughout the life of the hook *)
(* ===================================================================== *)

Section LifecycleFacts.

Import Js Effect UseOSMD UseOSMD_ops Activation Lifecycle.

Lemma instances_app tr1 tr2 :
  instances (tr1 ++ tr2) = instances tr1 + instances tr2.
Proof. unfold instances. now rewrite List.filter_app, length_app. Qed.

Lemma quiet_refl st : quiet st st.
Proof.
  split; [reflexivity |]. split; [| split].
  - exists id. split; [now destruct (osmd st) | now destruct (osmdRef st)].
  - exists []. now rewrite app_nil_r.
  - intros _. split; reflexivity.
Qed.

Lemma quiet_settled st loading err events :
  instances events = 0 -> constructions events = 0 ->
  (osmdRef st = None -> loading = isLoading st) ->
  quiet st (settled st loading err events).
Proof.
  intros Hi Hc Hl. split; [reflexivity |]. split; [| split].
  - exists id. split; simpl;
      [now destruct (osmd st) | now destruct (osmdRef st)].
  - exists events. repeat split; assumption.
  - intros Hb. split; [now apply Hl | reflexivity].
Qed.

Lemma load_quiet file title st : quiet st (snd (load file title st)).
Proof.
  destruct (osmdRef st) as [engine |] eqn:Hb.
  - destruct (load_outcome engine (trace st ++ issued file title) file title)
      as [| v] eqn:Hl.
    + destruct (render_outcome engine
                  (trace st ++ issued file title ++ [EngineRender]))
        as [| v] eqn:Hr.
      * rewrite (load_succeeds _ _ _ _ Hb Hl Hr).
        apply quiet_settled; [reflexivity | reflexivity | congruence].
      * rewrite (load_render_throws _ _ _ _ _ Hb Hl Hr).
        apply quiet_settled; [reflexivity | reflexivity | congruence].
    + rewrite (load_rejected _ _ _ _ _ Hb Hl).
      apply quiet_settled; [reflexivity | reflexivity | congruence].
  - rewrite (load_unbound _ _ _ Hb). apply quiet_refl.
Qed.

Lemma clear_quiet st : quiet st (snd (clear st)).
Proof.
  destruct (osmdRef st) as [engine |] eqn:Hb.
  - destruct (clear_outcome engine (trace st ++ [EngineClear])) as [| v] eqn:Ho.
    + rewrite (clear_completes _ _ Hb Ho). now apply quiet_settled.
    + rewrite (clear_throws _ _ _ Hb Ho). now apply quiet_settled.
  - rewrite (clear_unbound _ Hb). apply quiet_refl.
Qed.

Lemma cleanup_quiet st : quiet st (snd (cleanup st)).
Proof.
  destruct (cleanup_settled st) as [events Heq].
  unfold cleanup in *. revert Heq.
  unfold try_catch, engine_clear, call_engine, emit, modify, bind, get_state,
    settle, ret, raise. simpl.
  destruct (osmdRef st) as [engine |] eqn:Hb; simpl.
  - rewrite Hb. simpl. intros _.
    destruct (clear_outcome engine (trace st ++ [EngineClear])); simpl;
      (split; [reflexivity |]; split; [| split];
       [ exists id; split; simpl; [now destruct (osmd st) | now rewrite Hb]
       | exists [EngineClear]; repeat split
       | intros _; split; reflexivity ]).
  - intros _. apply quiet_refl.
Qed.

Lemma render_quiet st : quiet st (snd (render st)).
Proof.
  unfold render, engine_render, call_engine, emit, modify, bind, get_state,
    settle, ret, raise. simpl.
  destruct (osmdRef st) as [engine |] eqn:Hb; simpl; [| apply quiet_refl].
  rewrite Hb. simpl.
  destruct (render_outcome engine (trace st ++ [EngineRender])); simpl;
    (split; [reflexivity |]; split; [| split];
     [ exists id; split; simpl; [now destruct (osmd st) | now rewrite Hb]
     | exists [EngineRender]; repeat split
     | intros _; split; reflexivity ]).
Qed.

Lemma setZoom_quiet scale st : quiet st (snd (setZoom scale st)).
Proof.
  destruct (osmdRef st) as [engine |] eqn:Hb.
  - rewrite (setZoom_bound_state scale st engine Hb). simpl.
    split; [reflexivity |]. split; [| split].
    + exists (with_zoom scale). split; simpl; [reflexivity | now rewrite Hb].
    + exists [SetZoomValue scale; EngineRender]. repeat split.
    + intros H. congruence.
  - unfold setZoom, bind, get_state, ret. simpl. rewrite Hb. apply quiet_refl.
Qed.

Lemma quiet_well_formed st st' :
  quiet st st' -> well_formed st -> well_formed st'.
Proof.
  intros (Hlatch & (f & Ho & Hr) & (events & Ht & Hi & _) & Hunbound)
         (Hsame & Hidle & Hopen & Hcount).
  assert (Hnone : osmdRef st' = None -> osmdRef st = None).
  { rewrite Hr. now destruct (osmdRef st). }
  split; [| split; [| split]].
  - now rewrite Ho, Hr, Hsame.
  - intros H. specialize (Hnone H).
    destruct (Hunbound Hnone) as [-> ->]. now apply Hidle.
  - intros H. rewrite Hlatch in H. rewrite Hr, (Hopen H). reflexivity.
  - rewrite Ht, instances_app, Hi, Hcount, Hr.
    destruct (osmdRef st); simpl; lia.
Qed.

Lemma init_effect_well_formed ctor container opts st :
  well_formed st ->
  well_formed (snd (init_effect ctor container opts st)) /\
  well_formed (snd (UseOSMD_rev.init_effect ctor container opts st)).
Proof.
  intros Hw.
  destruct container as [c |];
    [| destruct (init_effect_guard ctor None opts st (or_introl eq_refl))
         as [-> ->]; split; exact Hw].
  destruct (initRef st) eqn:Hi;
    [destruct (init_effect_guard ctor (Some c) opts st (or_intror Hi))
       as [-> ->]; split; exact Hw |].
  destruct Hw as (Hsame & Hidle & Hopen & Hcount).
  pose proof (Hopen Hi) as Hb.
  destruct (ctor (trace st ++ [Construct c opts]) c opts)
    as [instance | v] eqn:Hctor.
  - destruct (init_effect_constructs ctor c opts st instance Hi Hctor)
      as [-> ->].
    assert (Hw' : well_formed (constructed st instance c opts)).
    { split; [reflexivity |]. split; [discriminate |].
      split; [discriminate |].
      simpl. rewrite instances_app, Hcount, Hb. reflexivity. }
    split; exact Hw'.
  - rewrite (init_effect_fails ctor c opts st v Hi Hctor).
    rewrite (rev_init_effect_fails ctor c opts st v Hi Hctor).
    split; (split; [exact Hsame |]; split; [exact Hidle |];
            split; [intros _; exact Hb |];
            simpl; rewrite instances_app, Hcount, Hb; reflexivity).
Qed.

(** X19: whatever the constructor and the engine do, and in whatever
    order the init effect runs and [load], [clear], [render], [setZoom] and
    the cleanup are called, in either revision of the hook: the [osmd] cell
    and [osmdRef] hold the same instance; at most one instance is ever
    bound, and it is bound from then on; the latch is set whenever an
    instance is bound; and as long as there is none, [isLoading] is [false]
    and the zoom cell is [1]. *)
Theorem hook_cells_well_formed
  (effect : InitEffect) (ctor : Constructor) (steps : list Step) :
  effect = init_effect \/ effect = UseOSMD_rev.init_effect ->
  well_formed (run effect ctor steps).
Proof.
  intros Heffect. unfold run.
  assert (Hinit : well_formed initial).
  { split; [reflexivity |]. split; [split; reflexivity |].
    split; reflexivity. }
  revert Hinit. generalize initial as st.
  induction steps as [| s steps IH]; intros st Hw; simpl; [exact Hw |].
  apply IH. destruct s as [r | file title | | | | scale]; simpl.
  - destruct (init_effect_well_formed ctor (container r) (initialOptions r)
                                      st Hw) as [H1 H2].
    destruct Heffect as [-> | ->]; assumption.
  - exact (quiet_well_formed _ _ (load_quiet file title st) Hw).
  - exact (quiet_well_formed _ _ (clear_quiet st) Hw).
  - exact (quiet_well_formed _ _ (cleanup_quiet st) Hw).
  - exact (quiet_well_formed _ _ (render_quiet st) Hw).
  - exact (quiet_well_formed _ _ (setZoom_quiet scale st) Hw).
Qed.

Lemma hook_cells_well_formed_witness :
  well_formed
    (run init_effect Samples.working_constructor
         [InitRun Samples.mounted; Load (Path "score.musicxml") None;
          Zoom (3 # 2); InitRun Samples.mounted; Clear; Cleanup]) /\
  well_formed
    (run UseOSMD_rev.init_effect Samples.failing_constructor
         [Render; InitRun Samples.mounted; Zoom 2; InitRun Samples.mounted]).
Proof.
  split.
  - apply (hook_cells_well_formed init_effect). left. reflexivity.
  - apply (hook_cells_well_formed UseOSMD_rev.init_effect). right. reflexivity.
Defined.

(** X20: in the second revision the engine's constructor is called at
    most once in the life of the hook, and exactly once as soon as the
    latch is set, whatever else is called in between and whether or not the
    construction succeeded. *)
Theorem rev_constructs_at_most_once (ctor : Constructor) (steps : list Step) :
  let st := run UseOSMD_rev.init_effect ctor steps in
  constructions (trace st) = if initRef st then 1 else 0.
Proof.
  unfold run.
  assert (Hinit : constructions (trace initial)
                  = if initRef initial then 1 else 0) by reflexivity.
  revert Hinit. generalize initial as st.
  induction steps as [| s steps IH]; intros st Hc; simpl; [exact Hc |].
  apply IH.
  assert (Hquiet : forall st', quiet st st' ->
            constructions (trace st') = if initRef st' then 1 else 0).
  { intros st' (Hlatch & _ & (events & Ht & _ & Hz) & _).
    now rewrite Ht, constructions_app, Hz, Hlatch, Hc, Nat.add_0_r. }
  destruct s as [r | file title | | | | scale]; simpl.
  - destruct (container r) as [c |];
      [| now destruct (init_effect_guard ctor None (initialOptions r) st
                         (or_introl eq_refl)) as [_ ->]].
    destruct (initRef st) eqn:Hi;
      [destruct (init_effect_guard ctor (Some c) (initialOptions r) st
                   (or_intror Hi)) as [_ ->]; simpl; now rewrite Hi |].
    destruct (ctor (trace st ++ [Construct c (initialOptions r)]) c
                   (initialOptions r)) as [instance | v] eqn:Hctor.
    + destruct (init_effect_constructs ctor c _ st instance Hi Hctor)
        as [_ ->].
      simpl. rewrite constructions_app, Hc. reflexivity.
    + rewrite (rev_init_effect_fails ctor c _ st v Hi Hctor).
      simpl. rewrite constructions_app, Hc. reflexivity.
  - apply Hquiet, load_quiet.
  - apply Hquiet, clear_quiet.
  - apply Hquiet, cleanup_quiet.
  - apply Hquiet, render_quiet.
  - apply Hquiet, setZoom_quiet.
Qed.

End LifecycleFacts.

(* ===================================================================== *)
(** * More on the component *)
(* ===================================================================== *)

Section ComponentRunFacts.

Import Js Effect UseOSMD SheetMusic SheetMusic_view.

Lemma resolve_source_hook p st :
  hook (snd (resolve_source p st)) = hook st.
Proof.
  unfold resolve_source, write_prevFileRef, write_prevMusicXMLRef, modify,
    bind, ret.
  destruct (truthy_musicXML (musicXML p)).
  - destruct (musicXML p) as [xml |]; [| reflexivity].
    destruct (is_empty (trim xml)); reflexivity.
  - destruct (truthy_file (file p)); [| reflexivity].
    destruct (file p) as [f |]; [| reflexivity].
    destruct (is_empty_path f); reflexivity.
Qed.

Lemma load_keeps_osmd source title h :
  osmd (snd (UseOSMD.load source title h)) = osmd h.
Proof.
  destruct (osmdRef h) as [engine |] eqn:Hb.
  - destruct (load_outcome engine (trace h ++ issued source title)
                           source title) as [| v] eqn:Hl.
    + destruct (render_outcome engine
                  (trace h ++ issued source title ++ [EngineRender]))
        as [| v] eqn:Hr.
      * now rewrite (load_succeeds _ _ _ _ Hb Hl Hr).
      * now rewrite (load_render_throws _ _ _ _ _ Hb Hl Hr).
    + now rewrite (load_rejected _ _ _ _ _ Hb Hl).
  - now rewrite (load_unbound _ _ _ Hb).
Qed.

Lemma call_back_keeps_osmd e cb st :
  osmd (hook (snd (call_back e cb st))) = osmd (hook st).
Proof.
  unfold call_back, in_hook, zoom_on, emit, modify, bind, get_state, settle,
    ret, raise.
  destruct cb as [f |]; simpl; [| reflexivity].
  destruct (f (trace (hook st) ++ [e])); reflexivity.
Qed.

Lemma loadMusic_keeps_osmd p st :
  osmd (hook (snd (loadMusic p st))) = osmd (hook st).
Proof.
  unfold loadMusic, try_catch, bind.
  pose proof (resolve_source_hook p st) as Hres.
  destruct (resolve_source p st) as [[[source |] | v] st1]; simpl in Hres.
  - unfold in_hook, zoom_on.
    pose proof (load_keeps_osmd source None (hook st1)) as Hload.
    destruct (UseOSMD.load source None (hook st1)) as [[[] | w] h1];
      simpl in Hload.
    + pose proof (call_back_keeps_osmd OnLoad (onLoad p)
                    {| hook := h1; prevFileRef := prevFileRef st1;
                       prevMusicXMLRef := prevMusicXMLRef st1 |}) as Hcb.
      destruct (call_back OnLoad (onLoad p) _) as [[[] | u] st2]; simpl in *.
      * congruence.
      * rewrite call_back_keeps_osmd. congruence.
    + rewrite call_back_keeps_osmd. simpl. congruence.
  - simpl. now rewrite Hres.
  - rewrite call_back_keeps_osmd. now rewrite Hres.
Qed.

Lemma load_effect_unchanged p st :
  file p = prevFileRef st -> musicXML p = prevMusicXMLRef st ->
  load_effect p st = (Returned tt, st).
Proof.
  intros Hf Hx.
  destruct (load_effect_cases p st) as [H | (_ & [Hc | Hc] & _)];
    [exact H | contradiction | contradiction].
Qed.

Lemma handed_over_bound h source :
  osmdRef h <> None -> handed_over h source = [source].
Proof. unfold handed_over. destruct (osmdRef h); congruence. Qed.

(** One triggered run of the effect for a [file] prop alone. *)
Lemma load_effect_file p st f :
  osmd (hook st) <> None -> osmdRef (hook st) <> None ->
  file p = Some f -> truthy_file (file p) = true ->
  truthy_musicXML (musicXML p) = false ->
  Some f <> prevFileRef st ->
  let st' := state_after (load_effect p) st in
  grows (hook st) (hook st') [source_of_file f] /\
  osmd (hook st') = osmd (hook st) /\
  prevFileRef st' = Some f /\
  prevMusicXMLRef st' = prevMusicXMLRef st.
Proof.
  intros Ho Hb Hf Ht Hx Hne st'. unfold st', state_after.
  assert (Hchanged : file p <> prevFileRef st \/
                     musicXML p <> prevMusicXMLRef st)
    by (left; now rewrite Hf).
  rewrite (load_effect_triggers p st Ho Hchanged (or_introl Ht)). simpl.
  pose proof (resolve_source_file p st f Hf Ht Hx) as Hres.
  pose proof (loadMusic_resolved p st _ _ Hres) as (Hgrow & Hpf & Hpx).
  simpl in Hgrow, Hpf, Hpx.
  rewrite (handed_over_bound _ _ Hb) in Hgrow.
  split; [exact Hgrow |]. split; [apply loadMusic_keeps_osmd |].
  split; assumption.
Qed.

(** X21: reloading when the file changes.  With an instance bound, no
    truthy [musicXML] in either run, and a first file that is not the one
    last submitted, a run of the effect with that file followed by a run
    with a different file calls the engine's [load] exactly twice, first
    with the one and then with the other, and leaves the second file as the
    one last submitted.  A file is a non-empty path, a [Document] or a
    [Blob]. *)
Theorem file_change_reloads (p1 p2 : Props) (st : State) (f1 f2 : FileProp) :
  osmd (hook st) <> None -> osmdRef (hook st) <> None ->
  file p1 = Some f1 -> file p2 = Some f2 ->
  truthy_file (Some f1) = true -> truthy_file (Some f2) = true ->
  truthy_musicXML (musicXML p1) = false ->
  truthy_musicXML (musicXML p2) = false ->
  Some f1 <> prevFileRef st -> f1 <> f2 ->
  let st2 := state_after (load_effect p2) (state_after (load_effect p1) st) in
  grows (hook st) (hook st2) [source_of_file f1; source_of_file f2] /\
  prevFileRef st2 = Some f2.
Proof.
  intros Ho Hb Hf1 Hf2 Ht1 Ht2 Hx1 Hx2 Hne Hdiff st2.
  rewrite <- Hf1 in Ht1. rewrite <- Hf2 in Ht2.
  destruct (load_effect_file p1 st f1 Ho Hb Hf1 Ht1 Hx1 Hne)
    as (Hg1 & Ho1 & Hp1 & _).
  set (st1 := state_after (load_effect p1) st) in *.
  assert (Hb1 : osmdRef (hook st1) <> None).
  { destruct Hg1 as (_ & _ & _ & ->). exact Hb. }
  assert (Ho1' : osmd (hook st1) <> None) by (now rewrite Ho1).
  assert (Hne1 : Some f2 <> prevFileRef st1) by (rewrite Hp1; congruence).
  destruct (load_effect_file p2 st1 f2 Ho1' Hb1 Hf2 Ht2 Hx2 Hne1)
    as (Hg2 & _ & Hp2 & _).
  split; [| exact Hp2].
  exact (grows_trans _ _ _ _ _ Hg1 Hg2).
Qed.

Lemma file_change_reloads_witness :
  let p1 := Samples.props_of (Some (FilePath "a.xml")) None in
  let p2 := Samples.props_of (Some (FilePath "b.xml")) None in
  let st := Samples.ready Samples.steady_engine in
  let st2 := state_after (load_effect p2) (state_after (load_effect p1) st) in
  grows (hook st) (hook st2) [Path "a.xml"; Path "b.xml"] /\
  prevFileRef st2 = Some (FilePath "b.xml").
Proof.
  intros p1 p2 st st2.
  apply (file_change_reloads p1 p2 st (FilePath "a.xml") (FilePath "b.xml"));
    try reflexivity; discriminate.
Defined.

(** X22: no reload for props that did not change.  When only one of the
    two props is in use (with a truthy [musicXML], [file] is what was last
    submitted; without one, [musicXML] is), running the effect again with
    the same props changes nothing: the engine's [load] is not called a
    second time. *)
Theorem unchanged_props_do_not_reload (p : Props) (st : State) :
  (truthy_musicXML (musicXML p) = true -> file p = prevFileRef st) ->
  (truthy_musicXML (musicXML p) = false -> musicXML p = prevMusicXMLRef st) ->
  let st1 := state_after (load_effect p) st in
  load_effect p st1 = (Returned tt, st1).
Proof.
  intros Hwith Hwithout st1. unfold st1, state_after.
  destruct (load_effect_cases p st) as [H | (_ & _ & Htruthy & H)];
    rewrite H; simpl; [exact H |].
  destruct (truthy_musicXML (musicXML p)) eqn:Hx.
  - specialize (Hwith eq_refl).
    destruct (musicXML p) as [xml |] eqn:Hxml; [| discriminate].
    destruct (is_empty (trim xml)) eqn:Hblank.
    + apply is_empty_true in Hblank.
      assert (Hne : xml <> "") by (destruct xml; [discriminate | congruence]).
      rewrite (loadMusic_returns p st
                 (resolve_source_blank p st xml Hxml Hne Hblank)) in H |- *.
      exact H.
    + assert (Htrim : trim xml <> "").
      { intros Hempty. apply is_empty_true in Hempty. congruence. }
      pose proof (resolve_source_musicXML p st xml Hxml Htrim) as Hres.
      pose proof (loadMusic_resolved p st _ _ Hres) as (_ & Hpf & Hpx).
      simpl in Hpf, Hpx.
      apply load_effect_unchanged; congruence.
  - specialize (Hwithout eq_refl).
    destruct Htruthy as [Ht | Ht]; [| discriminate].
    destruct (file p) as [f |] eqn:Hf; [| discriminate].
    rewrite <- Hf in Ht.
    pose proof (resolve_source_file p st f Hf Ht Hx) as Hres.
    pose proof (loadMusic_resolved p st _ _ Hres) as (_ & Hpf & Hpx).
    simpl in Hpf, Hpx.
    apply load_effect_unchanged; congruence.
Qed.

Lemma unchanged_props_do_not_reload_witness :
  let p := Samples.props_of (Some (FilePath "test.musicxml")) None in
  let st1 := state_after (load_effect p) (Samples.ready Samples.steady_engine) in
  load_effect p st1 = (Returned tt, st1).
Proof.
  intros p st1.
  apply (unchanged_props_do_not_reload p (Samples.ready Samples.steady_engine)).
  - discriminate.
  - reflexivity.
Defined.

(** One triggered run of the effect for a [musicXML] with something in
    it. *)
Lemma load_effect_musicXML p st xml :
  osmd (hook st) <> None -> osmdRef (hook st) <> None ->
  musicXML p = Some xml -> trim xml <> "" ->
  file p <> prevFileRef st \/ musicXML p <> prevMusicXMLRef st ->
  let st' := state_after (load_effect p) st in
  grows (hook st) (hook st') [Doc (parseFromString xml "text/xml")] /\
  osmd (hook st') = osmd (hook st) /\
  prevFileRef st' = prevFileRef st /\
  prevMusicXMLRef st' = Some xml.
Proof.
  intros Ho Hb Hxml Htrim Hchanged st'. unfold st', state_after.
  assert (Htruthy : truthy_musicXML (musicXML p) = true).
  { rewrite Hxml. destruct xml; [now contradict Htrim | reflexivity]. }
  rewrite (load_effect_triggers p st Ho Hchanged (or_intror Htruthy)). simpl.
  pose proof (resolve_source_musicXML p st xml Hxml Htrim) as Hres.
  pose proof (loadMusic_resolved p st _ _ Hres) as (Hgrow & Hpf & Hpx).
  simpl in Hgrow, Hpf, Hpx.
  rewrite (handed_over_bound _ _ Hb) in Hgrow.
  split; [exact Hgrow |]. split; [apply loadMusic_keeps_osmd |].
  split; assumption.
Qed.

(** X23: with both props in use the change detection never settles.  The
    [musicXML] branch records the [musicXML] it submitted but not the
    [file].  So with an instance bound, a [musicXML] that is not blank
    (not empty once trimmed) and a [file] that differs from the one last
    submitted, the [file] counts as changed on every run: each of [n] runs
    of the effect with the same props calls the engine's [load] again with
    the parsed document, and the file last submitted stays what it was. *)
Theorem both_props_reload_every_run
  (p : Props) (st : State) (xml : string) (n : nat) :
  osmd (hook st) <> None -> osmdRef (hook st) <> None ->
  musicXML p = Some xml -> trim xml <> "" ->
  file p <> prevFileRef st ->
  let st' := Nat.iter n (state_after (load_effect p)) st in
  grows (hook st) (hook st')
        (List.repeat (Doc (parseFromString xml "text/xml")) n) /\
  prevFileRef st' = prevFileRef st.
Proof.
  intros Ho Hb Hxml Htrim Hfile st'. unfold st'. clear st'.
  assert (Hall : let st' := Nat.iter n (state_after (load_effect p)) st in
                 grows (hook st) (hook st')
                       (List.repeat (Doc (parseFromString xml "text/xml")) n) /\
                 prevFileRef st' = prevFileRef st /\
                 osmd (hook st') = osmd (hook st)).
  { induction n as [| n IH]; simpl.
    - split; [apply grows_refl | split; reflexivity].
    - destruct IH as (Hg & Hpf & Hosmd).
      set (stn := Nat.iter n (state_after (load_effect p)) st) in *.
      assert (Hbn : osmdRef (hook stn) <> None).
      { destruct Hg as (_ & _ & _ & ->). exact Hb. }
      assert (Hon : osmd (hook stn) <> None) by (now rewrite Hosmd).
      assert (Hchanged : file p <> prevFileRef stn \/
                         musicXML p <> prevMusicXMLRef stn)
        by (left; now rewrite Hpf).
      destruct (load_effect_musicXML p stn xml Hon Hbn Hxml Htrim Hchanged)
        as (Hg' & Ho' & Hpf' & _).
      split; [| split; congruence].
      rewrite List.repeat_cons.
      exact (grows_trans _ _ _ _ _ Hg Hg'). }
  destruct Hall as (Hg & Hpf & _). split; assumption.
Qed.

Lemma both_props_reload_every_run_witness :
  let p := Samples.props_of (Some (FilePath "test.musicxml"))
                            (Some Samples.score) in
  let st := Samples.ready Samples.steady_engine in
  grows (hook st) (hook (Nat.iter 3 (state_after (load_effect p)) st))
        (List.repeat (Doc (parseFromString Samples.score "text/xml")) 3).
Proof.
  intros p st.
  apply (both_props_reload_every_run p st Samples.score 3);
    try discriminate; reflexivity.
Defined.

(** X24: a load that succeeds.  Once the source is resolved, and when the
    engine's [load] and [render] complete, [loadMusic] leaves [isLoading]
    false and no error, and calls [onLoad] (if there is one) exactly once,
    after [setIsLoading(false)]; [onError] is not called.  Only if [onLoad]
    itself throws is the thrown value, made an [Error], handed to
    [onError]: the call of [onLoad] sits inside the [try] block. *)
Theorem successful_load_notifies_onLoad
  (p : Props) (st st1 : State) (source : Source) (engine : Engine) :
  resolve_source p st = (Returned (Some source), st1) ->
  osmdRef (hook st) = Some engine ->
  load_outcome engine (trace (hook st) ++ issued source None) source None
  = Completes ->
  render_outcome engine (trace (hook st) ++ issued source None ++ [EngineRender])
  = Completes ->
  let st' := state_after (loadMusic p) st in
  let loaded := issued source None ++ [EngineRender; SetIsLoading false] in
  let reported v :=
    match onError p with
    | Some _ => [OnError (as_Error "Failed to load music" v)]
    | None => []
    end in
  data_loading st' = false /\ data_error st' = false /\
  trace (hook st')
  = trace (hook st) ++ loaded ++
    match onLoad p with
    | None => []
    | Some cb =>
        OnLoad :: match cb (trace (hook st) ++ loaded ++ [OnLoad]) with
                  | Completes => []
                  | Throws v => reported v
                  end
    end.
Proof.
  intros Hres Hb Hl Hr st' loaded reported.
  unfold st', loaded, reported, state_after, data_loading, data_error.
  pose proof (resolve_source_hook p st) as Hhook.
  rewrite Hres in Hhook. simpl in Hhook.
  unfold loadMusic, try_catch, bind. rewrite Hres.
  unfold in_hook, zoom_on. rewrite Hhook.
  rewrite (load_succeeds _ _ _ _ Hb Hl Hr).
  unfold call_back, in_hook, zoom_on, emit, modify, bind, get_state, settle,
    ret, raise, settled.
  destruct (onLoad p) as [cb |]; simpl.
  - rewrite <- ?app_assoc. simpl.
    destruct (cb _); simpl.
    + repeat split.
    + destruct (onError p) as [cb' |]; simpl.
      * rewrite <- ?app_assoc. simpl.
        destruct (cb' _); simpl; repeat split.
      * repeat split.
  - rewrite <- ?app_assoc. repeat split.
Qed.

Lemma successful_load_notifies_onLoad_witness :
  let p := Samples_more.props_with_callbacks
             (Some (FilePath "test.musicxml")) None
             (Some (Samples_more.throwing_callback (NonError "oops")))
             (Some Samples_more.quiet_callback) in
  let st := Samples.ready Samples.steady_engine in
  trace (hook (state_after (loadMusic p) st))
  = [SetIsLoading true; SetError None; EngineLoad (Path "test.musicxml") None;
     EngineRender; SetIsLoading false; OnLoad;
     OnError (ErrorObject "Failed to load music")].
Proof.
  intros p st.
  exact (proj2 (proj2
    (successful_load_notifies_onLoad p st _ (Path "test.musicxml")
       Samples.steady_engine eq_refl eq_refl eq_refl eq_refl))).
Defined.

(** X25: a load that fails.  When the engine's [load] rejects with [v],
    [loadMusic] hands [onError] the error that the hook stored ([v] itself
    if it is an [Error], else "Failed to load music") and leaves
    [data-error] set and [data-loading] cleared; [onLoad] is not called.
    The error effect, which runs when the [error] cell has changed, then
    hands the same error to [onError] a second time. *)
Theorem failed_load_notifies_onError_twice
  (p : Props) (st st1 : State) (source : Source) (engine : Engine)
  (v : Thrown) (cb : Callback) :
  resolve_source p st = (Returned (Some source), st1) ->
  osmdRef (hook st) = Some engine ->
  load_outcome engine (trace (hook st) ++ issued source None) source None
  = Throws v ->
  onError p = Some cb ->
  let failure := as_Error "Failed to load music" v in
  let st' := state_after (loadMusic p) st in
  let st'' := state_after (error_effect p) st' in
  trace (hook st')
  = trace (hook st) ++ issued source None
    ++ [SetError (Some failure); SetIsLoading false; OnError failure] /\
  data_error st' = true /\ data_loading st' = false /\
  trace (hook st'') = trace (hook st') ++ [OnError failure] /\
  errors_reported (trace (hook st''))
  = errors_reported (trace (hook st)) ++ [failure; failure] /\
  loads_reported (trace (hook st'')) = loads_reported (trace (hook st)).
Proof.
  intros Hres Hb Hl Hcb failure st' st''.
  unfold st'', st', state_after, data_loading, data_error.
  pose proof (resolve_source_hook p st) as Hhook.
  rewrite Hres in Hhook. simpl in Hhook.
  assert (Hfail : as_Error "Failed to load music" failure = failure).
  { unfold failure. now destruct v. }
  assert (Hmusic :
    exists r,
      loadMusic p st
      = (r, {| hook := settled (hook st) false (Some failure)
                         (issued source None
                          ++ [SetError (Some failure); SetIsLoading false;
                              OnError failure]);
               prevFileRef := prevFileRef st1;
               prevMusicXMLRef := prevMusicXMLRef st1 |})).
  { unfold loadMusic, try_catch, bind. rewrite Hres.
    unfold in_hook, zoom_on. rewrite Hhook.
    rewrite (load_rejected _ _ _ _ _ Hb Hl). fold failure. rewrite Hfail.
    unfold call_back, in_hook, zoom_on, emit, modify, bind, get_state, settle,
      ret, raise, settled.
    rewrite Hcb. simpl. rewrite <- ?app_assoc. simpl.
    destruct (cb _); eexists; reflexivity. }
  destruct Hmusic as [r ->]. simpl.
  unfold error_effect, call_back, in_hook, zoom_on, emit, modify, bind,
    get_state, settle, ret, raise. simpl. rewrite Hcb. simpl.
  split; [reflexivity |]. split; [reflexivity |]. split; [reflexivity |].
  split; [destruct (cb _); reflexivity |].
  unfold errors_reported, loads_reported.
  destruct (cb _); simpl;
    rewrite ?omap_app, ?List.filter_app, ?length_app; simpl;
    rewrite <- ?app_assoc; simpl; split; try reflexivity; lia.
Qed.

Lemma failed_load_notifies_onError_twice_witness :
  let engine := Samples.rejecting_engine (NonError "String error") in
  let p := Samples_more.props_with_callbacks
             (Some (FilePath "test.musicxml")) None None
             (Some Samples_more.quiet_callback) in
  let st := Samples.ready engine in
  errors_reported
    (trace (hook (state_after (error_effect p) (state_after (loadMusic p) st))))
  = [ErrorObject "Failed to load music"; ErrorObject "Failed to load music"].
Proof.
  intros engine p st.
  destruct (failed_load_notifies_onError_twice p st _ (Path "test.musicxml")
              engine (NonError "String error") Samples_more.quiet_callback
              eq_refl eq_refl eq_refl eq_refl)
    as (_ & _ & _ & _ & Hreported & _).
  exact Hreported.
Defined.

(** X26: the options the component hands to the hook are the [options]
    prop with [autoResize] set on top: [true] unless the [autoResize] prop
    says otherwise, whatever [options] itself says about [autoResize];
    every other option is passed on unchanged. *)
Theorem hook_options_autoResize (p : Props) :
  hook_options p !! "autoResize" = Some (OptBool (default true (autoResize p))) /\
  forall key, key <> "autoResize" -> hook_options p !! key = options p !! key.
Proof.
  unfold hook_options. split.
  - apply lookup_insert_eq.
  - intros key Hne. apply lookup_insert_ne. congruence.
Qed.

Lemma hook_options_autoResize_witness :
  let p := mkProps None None
             (<["autoResize" := OptBool true]> (<["backend" := OptString "svg"]> ∅))
             None None (Some false) in
  hook_options p !! "autoResize" = Some (OptBool false) /\
  hook_options p !! "backend" = Some (OptString "svg").
Proof.
  intros p. destruct (hook_options_autoResize p) as [Hauto Hother].
  split; [exact Hauto |].
  rewrite (Hother "backend") by discriminate. reflexivity.
Defined.

End ComponentRunFacts.
